(** * w3w: a Go client of the what3words HTTP API

    Shallow embedding of [w3w.go].  Go strings are byte strings and are
    modelled by [string]; [url.Values] (a Go [map[string][]string]) is a
    [gmap string (list string)]; [float64] is modelled by its exact dyadic
    value; the HTTP transport and the JSON decoder are the environment of a
    small monad that records every request and decode and that can panic. *)

From Stdlib Require Import ZArith Ascii String List.
From Stdlib Require QArith Qabs Lqa.
From stdpp Require Import base tactics option list sorting gmap strings fin_maps.

Local Open Scope string_scope.
Local Open Scope list_scope.

(** ** Go strings *)

Module GoStrings.

(** [strings.Join(elems, sep)]. *)
Fixpoint join_rest (sep : string) (elems : list string) : string :=
  match elems with
  | [] => ""
  | s :: rest => sep +:+ s +:+ join_rest sep rest
  end.

Definition Join (elems : list string) (sep : string) : string :=
  match elems with
  | [] => ""
  | s :: rest => s +:+ join_rest sep rest
  end.

(** [unicode.IsSpace] on a code point: the Latin-1 spaces and the code
    points with the White_Space property. *)
Definition between (lo hi c : N) : bool := ((lo <=? c) && (c <=? hi))%N.

Definition IsSpace (r : N) : bool :=
  (between 9 13 r || (r =? 32) || (r =? 133) || (r =? 160) || (r =? 5760)
   || between 8192 8202 r || (r =? 8232) || (r =? 8233) || (r =? 8239)
   || (r =? 8287) || (r =? 12288))%N.

Definition byte (n : N) : ascii := ascii_of_N n.

(** [utf8.EncodeRune]; surrogates and values past U+10FFFF are encoded as
    U+FFFD. *)
Definition EncodeRune (r : N) : list ascii :=
  if (r <=? 127)%N then [byte r]
  else if (r <=? 2047)%N then
    [byte (192 + N.shiftr r 6); byte (128 + N.land r 63)]
  else if (1114111 <? r)%N || between 55296 57343 r then
    [byte 239; byte 191; byte 189]
  else if (r <=? 65535)%N then
    [byte (224 + N.shiftr r 12); byte (128 + N.land (N.shiftr r 6) 63);
     byte (128 + N.land r 63)]
  else
    [byte (240 + N.shiftr r 18); byte (128 + N.land (N.shiftr r 12) 63);
     byte (128 + N.land (N.shiftr r 6) 63); byte (128 + N.land r 63)].

(** The byte sequences that decode to a white space code point. *)
Definition is_space1 (a : N) : bool := (between 9 13 a || (a =? 32))%N.

Definition is_space2 (a b : N) : bool :=
  ((a =? 194) && ((b =? 133) || (b =? 160)))%N.

Definition is_space3 (a b c : N) : bool :=
  (((a =? 225) && (b =? 154) && (c =? 128))
   || ((a =? 226) && (b =? 128)
       && (between 128 138 c || (c =? 168) || (c =? 169) || (c =? 175)))
   || ((a =? 226) && (b =? 129) && (c =? 159))
   || ((a =? 227) && (b =? 128) && (c =? 128)))%N.

(** [TrimLeftFunc(s, unicode.IsSpace)]: runes are decoded from the left. *)
Fixpoint trim_left (s : list ascii) : list ascii :=
  match s with
  | [] => []
  | a :: s1 =>
      if is_space1 (N_of_ascii a) then trim_left s1
      else match s1 with
           | [] => s
           | b :: s2 =>
               if is_space2 (N_of_ascii a) (N_of_ascii b) then trim_left s2
               else match s2 with
                    | [] => s
                    | c :: s3 =>
                        if is_space3 (N_of_ascii a) (N_of_ascii b) (N_of_ascii c)
                        then trim_left s3 else s
                    end
           end
  end.

(** [TrimRightFunc(s, unicode.IsSpace)] on the reversed bytes: the last rune
    is decoded backwards from the end ([utf8.DecodeLastRuneInString]). *)
Fixpoint trim_left_rev (s : list ascii) : list ascii :=
  match s with
  | [] => []
  | c :: s1 =>
      if is_space1 (N_of_ascii c) then trim_left_rev s1
      else match s1 with
           | [] => s
           | b :: s2 =>
               if is_space2 (N_of_ascii b) (N_of_ascii c) then trim_left_rev s2
               else match s2 with
                    | [] => s
                    | a :: s3 =>
                        if is_space3 (N_of_ascii a) (N_of_ascii b) (N_of_ascii c)
                        then trim_left_rev s3 else s
                    end
           end
  end.

(** One white space rune removed from the front, if there is one; the same
    from the back of a string given in reverse. *)
Definition strip_space (s : list ascii) : option (list ascii) :=
  match s with
  | a :: s1 =>
      if is_space1 (N_of_ascii a) then Some s1
      else match s1 with
           | b :: s2 =>
               if is_space2 (N_of_ascii a) (N_of_ascii b) then Some s2
               else match s2 with
                    | c :: s3 =>
                        if is_space3 (N_of_ascii a) (N_of_ascii b) (N_of_ascii c)
                        then Some s3 else None
                    | [] => None
                    end
           | [] => None
           end
  | [] => None
  end.

Definition strip_space_rev (s : list ascii) : option (list ascii) :=
  match s with
  | c :: s1 =>
      if is_space1 (N_of_ascii c) then Some s1
      else match s1 with
           | b :: s2 =>
               if is_space2 (N_of_ascii b) (N_of_ascii c) then Some s2
               else match s2 with
                    | a :: s3 =>
                        if is_space3 (N_of_ascii a) (N_of_ascii b) (N_of_ascii c)
                        then Some s3 else None
                    | [] => None
                    end
           | [] => None
           end
  | [] => None
  end.

Definition trim_right (s : list ascii) : list ascii :=
  rev (trim_left_rev (rev s)).

(** [strings.TrimSpace(s)]: leading, then trailing white space removed. *)
Definition TrimSpace (s : string) : string :=
  string_of_list_ascii (trim_right (trim_left (list_ascii_of_string s))).

(** A string made of white space only: a concatenation of UTF-8 encodings
    of white space code points (the empty string included). *)
Inductive AllSpace : list ascii -> Prop :=
  | AllSpace_nil : AllSpace []
  | AllSpace_rune r s : IsSpace r = true -> AllSpace s -> AllSpace (EncodeRune r ++ s).

Definition WhitespaceOnly (s : string) : Prop := AllSpace (list_ascii_of_string s).

End GoStrings.

(** ** net/url: [Values], [Set], [QueryEscape], [Encode] *)

Module url.

Abbreviation Values := (gmap string (list string)).

(** [v.Set(key, value)]: the key's values are replaced by the one value. *)
Definition Set_ (key value : string) (v : Values) : Values :=
  <[key := [value]]> v.

Definition upperhex (n : N) : ascii :=
  match n with
  | 0 => "0" | 1 => "1" | 2 => "2" | 3 => "3" | 4 => "4" | 5 => "5"
  | 6 => "6" | 7 => "7" | 8 => "8" | 9 => "9" | 10 => "A" | 11 => "B"
  | 12 => "C" | 13 => "D" | 14 => "E" | _ => "F"
  end%N%char.

Definition between := GoStrings.between.

(** [shouldEscape(c, encodeQueryComponent)]: only the unreserved bytes
    (letters, digits, [-], [_], [.], [~]) are left as they are. *)
Definition shouldEscape (c : ascii) : bool :=
  let n := N_of_ascii c in
  if between 97 122 n || between 65 90 n || between 48 57 n then false
  else if (n =? 45)%N || (n =? 95)%N || (n =? 46)%N || (n =? 126)%N then false
  else true.

Definition escape_byte (c : ascii) : string :=
  if shouldEscape c then
    if Ascii.eqb c " " then "+"
    else let n := N_of_ascii c in
         String "%" (String (upperhex (N.shiftr n 4))
                    (String (upperhex (N.land n 15)) ""))
  else String c "".

Fixpoint QueryEscape (s : string) : string :=
  match s with
  | "" => ""
  | String c s' => escape_byte c +:+ QueryEscape s'
  end.

(** The bytes that an escaped text is made of: the unreserved ones, and
    the [%] and [+] that escaping writes. *)
Definition escaped_byte (c : ascii) : bool :=
  negb (shouldEscape c) || Ascii.eqb c "%" || Ascii.eqb c "+".

(** The keys of the map in increasing byte order
    ([slices.Sorted(maps.Keys(v))]). *)
Definition sorted_keys (v : Values) : list string :=
  merge_sort String.le (map_to_list v).*1.

(** One turn of the inner loop of [Encode]: a separator unless the buffer
    is empty, then [key=value], both escaped. *)
Definition write_pair (keyEscaped : string) (buf value : string) : string :=
  (if (0 <? String.length buf)%nat then buf +:+ "&" else buf)
    +:+ keyEscaped +:+ "=" +:+ QueryEscape value.

Definition write_key (v : Values) (buf key : string) : string :=
  foldl (write_pair (QueryEscape key)) buf (default [] (v !! key)).

Definition Encode (v : Values) : string :=
  foldl (write_key v) "" (sorted_keys v).

End url.

(** ** float64 and [fmt.Sprintf("%.15f", x)] *)

Module strconv.

(** A [float64] by its exact value: not-a-number, an infinity, a signed
    zero, or [(-1)^neg * m * 2^e].  An IEEE double has [m < 2^53] and
    [-1074 <= e <= 971]; nothing below depends on these bounds. *)
Inductive float64 : Type :=
  | NaN
  | Inf (neg : bool)
  | Zero (neg : bool)
  | Finite (neg : bool) (m : positive) (e : Z).

Definition digit_char (d : Z) : ascii := ascii_of_N (48 + Z.to_N d).

(** The [k] low decimal digits of [n], most significant first, before [acc]. *)
Fixpoint frac_digits (k : nat) (n : Z) (acc : string) : string :=
  match k with
  | O => acc
  | S k' => frac_digits k' (n / 10) (String (digit_char (n mod 10)) acc)
  end.

(** All decimal digits of [n >= 0] (a single ["0"] for zero), before [acc]. *)
Fixpoint int_digits_go (fuel : nat) (n : Z) (acc : string) : string :=
  match fuel with
  | O => acc
  | S fuel' =>
      let acc' := String (digit_char (n mod 10)) acc in
      if (n / 10 =? 0)%Z then acc' else int_digits_go fuel' (n / 10) acc'
  end.

Definition int_digits (n : Z) (acc : string) : string :=
  int_digits_go (S (Z.to_nat (Z.log2 n))) n acc.

(** [num / den] rounded to the nearest integer, ties to the even one
    ([decimal.Round] with [shouldRoundUp]); [den > 0]. *)
Definition round_half_even (num den : Z) : Z :=
  let q := (num / den)%Z in
  match (2 * (num mod den) ?= den)%Z with
  | Lt => q
  | Gt => (q + 1)%Z
  | Eq => if Z.even q then q else (q + 1)%Z
  end.

(** [m * 2^e * 10^prec] rounded to an integer. *)
Definition scaled (prec : nat) (m : positive) (e : Z) : Z :=
  if (0 <=? e)%Z then (Z.pos m * 2 ^ e * 10 ^ Z.of_nat prec)%Z
  else round_half_even (Z.pos m * 10 ^ Z.of_nat prec) (2 ^ (- e)).

(** [%f] layout of [n / 10^prec]: the integer digits, a point, [prec] digits
    ([fmtF]; [prec > 0] here). *)
Definition fixed (prec : nat) (n : Z) : string :=
  int_digits (n / 10 ^ Z.of_nat prec)
    (String "." (frac_digits prec (n mod 10 ^ Z.of_nat prec) "")).

Definition sign (neg : bool) : string := if neg then "-" else "".

(** [fmt.Sprintf("%.<prec>f", x)]: the value correctly rounded to [prec]
    decimals; [NaN], [+Inf] and [-Inf] are printed by name. *)
Definition Sprintf_f (prec : nat) (x : float64) : string :=
  match x with
  | NaN => "NaN"
  | Inf neg => if neg then "-Inf" else "+Inf"
  | Zero neg => sign neg +:+ fixed prec 0
  | Finite neg m e => sign neg +:+ fixed prec (scaled prec m e)
  end.

(** Reading a fixed-point text back. *)
Definition digit_val (c : ascii) : option Z :=
  let n := N_of_ascii c in
  if url.between 48 57 n then Some (Z.of_N n - 48)%Z else None.

Fixpoint read_digits (s : string) (acc : Z) (count : nat) : Z * nat * string :=
  match s with
  | "" => (acc, count, "")
  | String c s' =>
      match digit_val c with
      | Some d => read_digits s' (10 * acc + d) (S count)
      | None => (acc, count, s)
      end
  end.

(** [read_fixed s = Some (neg, n, k)] when [s] is an optional [-], at least
    one digit, a point and [k] digits and nothing else; [s] then denotes
    [(-1)^neg * n / 10^k]. *)
Definition read_fixed (s : string) : option (bool * Z * nat) :=
  let '(neg, body) :=
    match s with String "-" s' => (true, s') | _ => (false, s) end in
  let '(ip, ni, rest) := read_digits body 0 0 in
  match ni, rest with
  | S _, String "." fr =>
      let '(n, nf, rest') := read_digits fr ip 0 in
      match rest' with "" => Some (neg, n, nf) | _ => None end
  | _, _ => None
  end.

Definition starts_with_digit (s : string) : Prop :=
  match s with String c _ => is_Some (digit_val c) | EmptyString => False end.

(** The sign bit and the exact magnitude of a float64, and whether it is a
    number at all. *)
Definition is_finite (x : float64) : bool :=
  match x with Zero _ | Finite _ _ _ => true | NaN | Inf _ => false end.

Definition sign_bit (x : float64) : bool :=
  match x with Zero neg | Finite neg _ _ | Inf neg => neg | NaN => false end.

Definition magnitude (x : float64) : QArith_base.Q :=
  match x with
  | Finite _ m e =>
      if (0 <=? e)%Z then QArith_base.inject_Z (Z.pos m * 2 ^ e)
      else QArith_base.Qmake (Z.pos m) (Z.to_pos (2 ^ (- e)))
  | _ => QArith_base.inject_Z 0
  end.

(** The number that [k] decimals [n] denote, and half a unit of the last
    of [k] decimals. *)
Definition decimal (n : Z) (k : nat) : QArith_base.Q :=
  QArith_base.Qmake n (Z.to_pos (10 ^ Z.of_nat k)).

Definition half_unit (k : nat) : QArith_base.Q :=
  QArith_base.Qmake 1 (2 * Z.to_pos (10 ^ Z.of_nat k)).

End strconv.

(** ** encoding/json: decoding a response body *)

Module json.

(** A JSON text, as the decoder's scanner delivers it. *)
#[local] Unset Elimination Schemes.
Inductive value : Type :=
  | Null
  | Bool (b : bool)
  | Number (literal : string)
  | Str (s : string)
  | Array (elems : list value)
  | Object (members : list (string * value)).
#[local] Set Elimination Schemes.

Definition kind (v : value) : string :=
  match v with
  | Null => "null" | Bool _ => "bool" | Number _ => "number"
  | Str _ => "string" | Array _ => "array" | Object _ => "object"
  end.

Definition upper (n : N) : N :=
  if GoStrings.between 97 122 n then (n - 32)%N else n.

(** [foldName(key) == foldName(name)] for an ASCII field name: ASCII letters
    match in either case, and U+017F and U+212A fold to S and K. *)
Fixpoint fold_eq (name key : list ascii) : bool :=
  match name, key with
  | [], [] => true
  | f :: name', c :: key1 =>
      let F := upper (N_of_ascii f) in
      if (N_of_ascii c <? 128)%N
      then (upper (N_of_ascii c) =? F)%N && fold_eq name' key1
      else match key1 with
           | c2 :: key2 =>
               if (F =? 83)%N && (N_of_ascii c =? 197)%N && (N_of_ascii c2 =? 191)%N
               then fold_eq name' key2
               else match key2 with
                    | c3 :: key3 =>
                        (F =? 75)%N && (N_of_ascii c =? 226)%N
                        && (N_of_ascii c2 =? 132)%N && (N_of_ascii c3 =? 170)%N
                        && fold_eq name' key3
                    | [] => false
                    end
           | [] => false
           end
  | _, _ => false
  end.

(** Does the object key select the struct field tagged [name]?  An exact
    match, or else a match under case folding. *)
Definition key_matches (name key : string) : bool :=
  String.eqb name key
  || fold_eq (list_ascii_of_string name) (list_ascii_of_string key).

End json.

(** ** The package w3w *)

Definition endpoint : string := "https://api.what3words.com".

Inductive error : Type :=
  | ErrNoAPIKey                       (* errors.New("No API Key specified") *)
  | ErrTransport (cause : string)     (* the error of [client.Do] *)
  | ErrSyntax (msg : string)          (* the decoder met an invalid JSON text *)
  | ErrUnmarshalType (found into : string). (* a JSON value of the wrong kind *)

(** [What3Words] is [[3]string]. *)
Record What3Words : Type := mkWords { word0 : string; word1 : string; word2 : string }.

(** [words[:]] *)
Definition words_slice (w : What3Words) : list string := [word0 w; word1 w; word2 w].

(** [LatLng] is [[2]float64]. *)
Record LatLng : Type := mkLatLng { Lat : strconv.float64; Lng : strconv.float64 }.

(** [BBox] is [[2]*LatLng]; a nil pointer is [None]. *)
Record BBox : Type := mkBBox { SW : option LatLng; NE : option LatLng }.

Record Position : Type := mkPosition {
  Position_Type : string;
  Position_Words : What3Words;
  Position_Position : option LatLng;
  Position_Corners : option BBox;
  Position_Language : string }.

Record Language : Type := mkLanguage { Code : string; Name : string }.

(** A Go slice: nil ([None]), or its elements together with what the backing
    array holds past the length, up to the capacity. *)
Record slice (A : Type) : Type := mkSlice { elems : list A; spare : list A }.
Arguments mkSlice {A} _ _.
Arguments elems {A} _.
Arguments spare {A} _.

Record Languages : Type := mkLanguages { Languages_Languages : option (slice Language) }.

Record Options : Type := mkOptions { Lang : string; Corners : bool }.

(** [var defs = Options{"en", false}] *)
Definition defs : Options := mkOptions "en" false.

(** [func (o *Options) add(v *url.Values)] *)
Definition add (o : Options) (v : url.Values) : url.Values :=
  let v := if String.eqb (Lang o) "" then url.Set_ "lang" "en" v
           else url.Set_ "lang" (Lang o) v in
  if Corners o then url.Set_ "corners" "true" v else v.

(** [http.Client]: the zero value [&http.Client{}]. *)
Inductive Client : Type := mkClient.

(** The struct [W3W]; [defaults] is a pointer, nil when [None]. *)
Record W3W : Type := mkW3W {
  apikey : string;
  client : Client;
  defaults : option Options }.

(** [func New(apikey string, defaults *Options)], returning [*W3W, error] *)
Definition New (apikey : string) (defaults : option Options)
  : option W3W * option error :=
  if String.eqb apikey "" || String.eqb (GoStrings.TrimSpace apikey) "" then
    (None, Some ErrNoAPIKey)
  else match defaults with
       | None => (Some (mkW3W apikey mkClient (Some defs)), None)
       | Some _ => (Some (mkW3W apikey mkClient defaults), None)
       end.

(** *** Unmarshalling into [Languages]

    A value of the wrong kind is skipped, its target is left as it was, and
    the error is recorded; decoding goes on and the first error is the one
    returned.  JSON [null] sets a slice to nil and is ignored by strings and
    structs. *)

Definition unmarshal_string (v : json.value) (cur : string) : string * list error :=
  match v with
  | json.Str s => (s, [])
  | json.Null => (cur, [])
  | _ => (cur, [ErrUnmarshalType (json.kind v) "string"])
  end.

Definition unmarshal_Language_member (cur : Language * list error)
    (kv : string * json.value) : Language * list error :=
  let '(l, errs) := cur in
  if json.key_matches "code" kv.1 then
    let '(c, e) := unmarshal_string kv.2 (Code l) in (mkLanguage c (Name l), errs ++ e)
  else if json.key_matches "name_display" kv.1 then
    let '(n, e) := unmarshal_string kv.2 (Name l) in (mkLanguage (Code l) n, errs ++ e)
  else cur.

Definition unmarshal_Language (v : json.value) (cur : Language) : Language * list error :=
  match v with
  | json.Object ms => foldl unmarshal_Language_member (cur, []) ms
  | json.Null => (cur, [])
  | _ => (cur, [ErrUnmarshalType (json.kind v) "w3w.Language"])
  end.

(** The elements of a JSON array, the i-th decoded into what the backing
    array holds at index i (the zero [Language] past its end). *)
Fixpoint unmarshal_elems (js : list json.value) (backing : list Language)
  : list Language * list error :=
  match js with
  | [] => ([], [])
  | j :: js' =>
      let '(x, e) := unmarshal_Language j (hd (mkLanguage "" "") backing) in
      let '(xs, es) := unmarshal_elems js' (tl backing) in
      (x :: xs, e ++ es)
  end.

Definition backing_array (s : option (slice Language)) : list Language :=
  match s with None => [] | Some sl => elems sl ++ spare sl end.

(** The decoder grows a slice that is full by one element at a time, and
    the capacity it then gets is the choice of the runtime and of the
    version of the library: [grow c] is the capacity that follows the
    capacity [c], taken to be larger than [c].  [capacity_for grow c n] is
    the capacity that a slice of capacity [c] has once it holds [n]
    elements. *)
Fixpoint grown (grow : nat -> nat) (fuel c n : nat) : nat :=
  if (n <=? c)%nat then c
  else match fuel with
       | O => c
       | S fuel' => grown grow fuel' (Nat.max (grow c) (S c)) n
       end.

Definition capacity_for (grow : nat -> nat) (c n : nat) : nat := grown grow n c n.

(** A JSON array of no element gives a new empty slice; any other array is
    decoded into the backing array, which is grown when it is full (what is
    new in it is zero) and keeps past the new length what it held there. *)
Definition unmarshal_slice (grow : nat -> nat) (v : json.value)
    (cur : option (slice Language)) : option (slice Language) * list error :=
  match v with
  | json.Array [] => (Some (mkSlice [] []), [])
  | json.Array js =>
      let old := backing_array cur in
      let n := length js in
      let '(xs, es) := unmarshal_elems js old in
      (Some (mkSlice xs
               (drop n old
                ++ replicate (capacity_for grow (length old) n - Nat.max n (length old))
                             (mkLanguage "" ""))), es)
  | json.Null => (None, [])
  | _ => (cur, [ErrUnmarshalType (json.kind v) "[]w3w.Language"])
  end.

Definition unmarshal_Languages_member (grow : nat -> nat)
    (cur : Languages * list error) (kv : string * json.value)
  : Languages * list error :=
  let '(l, errs) := cur in
  if json.key_matches "languages" kv.1 then
    let '(sl, e) := unmarshal_slice grow kv.2 (Languages_Languages l) in
    (mkLanguages sl, errs ++ e)
  else cur.

Definition unmarshal_Languages (grow : nat -> nat) (v : json.value)
    (cur : Languages) : Languages * option error :=
  match v with
  | json.Object ms =>
      let '(l, errs) := foldl (unmarshal_Languages_member grow) (cur, []) ms in
      (l, head errs)
  | json.Null => (cur, None)
  | _ => (cur, Some (ErrUnmarshalType (json.kind v) "w3w.Languages"))
  end.

(** *** The environment: transport and decoder *)

Record Request : Type := mkRequest {
  Method : string;
  URL : string;
  Header : gmap string (list string) }.

(** [http.NewRequest(method, url, nil)].  Its error is dropped by [exec];
    it cannot fail here, the URL being the endpoint, a fixed path and an
    encoded query. *)
Definition NewRequest (method url_ : string) : Request := mkRequest method url_ ∅.

(** [req.Header.Add(key, value)] *)
Definition Header_Add (key value : string) (req : Request) : Request :=
  mkRequest (Method req) (URL req)
    (<[key := default [] (Header req !! key) ++ [value]]> (Header req)).

(** A response body, as the decoder reads it: bytes that do not start with
    a JSON value, or a JSON value and the bytes that follow it.  The decoder
    reads the first value of the body and leaves what follows unread. *)
Inductive Body : Type :=
  | Garbled (why : string)
  | Document (v : json.value) (rest : string).

Record Response : Type := mkResponse { StatusCode : Z; Response_Body : Body }.

(** What the program does to the outside, in order. *)
Inductive event : Type :=
  | EvDo (req : Request)      (* [client.Do(req)] *)
  | EvDecode (b : Body).      (* [json.NewDecoder(body).Decode(in)] *)

(** The outside: the transport, which answers a request knowing what
    happened before, the decoder of the [Position] shape, and the
    capacities that the decoder's slices grow to. *)
Record Env : Type := mkEnv {
  env_Do : list event -> Request -> Response + error;
  env_unmarshal_Position : json.value -> Position -> Position * option error;
  env_grow : nat -> nat }.

(** A call returns or panics. *)
Inductive outcome (A : Type) : Type :=
  | Returned (a : A)
  | Panicked (msg : string).
Arguments Returned {A} _.
Arguments Panicked {A} _.

(** Computations: they read the environment and extend the log of events. *)
Definition M (A : Type) : Type := Env -> list event -> outcome A * list event.

#[global] Instance M_ret : MRet M := λ A a _ log, (Returned a, log).

#[global] Instance M_bind : MBind M := λ A B f m env log,
  match m env log with
  | (Returned a, log') => f a env log'
  | (Panicked msg, log') => (Panicked msg, log')
  end.

Definition panic {A} (msg : string) : M A := λ _ log, (Panicked msg, log).

(** [w.client.Do(req)] *)
Definition client_Do (c : Client) (req : Request) : M (Response + error) :=
  λ env log, (Returned (env_Do env log req), log ++ [EvDo req]).

(** What [in interface{}] holds: a non-nil [*Position] or [*Languages]. *)
Inductive iface : Type :=
  | PositionPtr (p : Position)
  | LanguagesPtr (l : Languages).

(** What decoding the body [b] into [in] leaves in it, and the error. *)
Definition decode_value (env : Env) (b : Body) (in_ : iface) : iface * option error :=
  match b with
  | Garbled why => (in_, Some (ErrSyntax why))
  | Document v _ =>
      match in_ with
      | PositionPtr p =>
          let '(p', e) := env_unmarshal_Position env v p in (PositionPtr p', e)
      | LanguagesPtr l =>
          let '(l', e) := unmarshal_Languages (env_grow env) v l in
          (LanguagesPtr l', e)
      end
  end.

(** [json.NewDecoder(body).Decode(in)] *)
Definition Decode (b : Body) (in_ : iface) : M (iface * option error) :=
  λ env log, (Returned (decode_value env b in_), log ++ [EvDecode b]).

Definition nil_dereference : string :=
  "runtime error: invalid memory address or nil pointer dereference".

(** [func (w *W3W) exec(url string, vals *url.Values, opts *Options,
    in interface{}) (interface{}, error)].  A nil interface is [None]. *)
Definition exec (w : W3W) (url_ : string) (vals : url.Values)
    (opts : option Options) (in_ : iface) : M (option iface * option error) :=
  vals ← match opts with
         | Some o => mret (add o vals)
         | None =>
             match defaults w with
             | Some d => mret (add d vals)
             | None => panic nil_dereference
             end
         end;
  let req := NewRequest "GET" (url_ +:+ "?" +:+ url.Encode vals) in
  let req := Header_Add "Accept" "application/json" req in
  r ← client_Do (client w) req;
  match r with
  | inr err => mret (None, Some err)
  | inl resp =>
      d ← Decode (Response_Body resp) in_;
      match d.2 with
      | Some err => mret (None, Some err)
      | None => mret (Some d.1, None)
      end
  end.

(** The type assertions of [pos] to [*Position] and of [langs] to [*Languages]. *)
Definition assert_Position (i : option iface) : M Position :=
  match i with
  | Some (PositionPtr p) => mret p
  | Some (LanguagesPtr _) =>
      panic "interface conversion: interface {} is *w3w.Languages, not *w3w.Position"
  | None => panic "interface conversion: interface {} is nil, not *w3w.Position"
  end.

Definition assert_Languages (i : option iface) : M Languages :=
  match i with
  | Some (LanguagesPtr l) => mret l
  | Some (PositionPtr _) =>
      panic "interface conversion: interface {} is *w3w.Position, not *w3w.Languages"
  | None => panic "interface conversion: interface {} is nil, not *w3w.Languages"
  end.

(** [&Position{}] and [&Languages{[]Language{}}] *)
Definition zero_Position : Position :=
  mkPosition "" (mkWords "" "" "") None None "".

Definition empty_Languages : Languages := mkLanguages (Some (mkSlice [] [])).

(** [fmt.Sprintf("%.15f,%.15f", ll[0], ll[1])] *)
Definition position_param (ll : LatLng) : string :=
  strconv.Sprintf_f 15 (Lat ll) +:+ "," +:+ strconv.Sprintf_f 15 (Lng ll).

(** [strings.Join(words[:], ".")] *)
Definition string_param (words : What3Words) : string :=
  GoStrings.Join (words_slice words) ".".

(** [func (w *W3W) Words(words What3Words, opts *Options)], returning [*Position, error] *)
Definition Words (w : W3W) (words : What3Words) (opts : option Options)
  : M (Position * option error) :=
  let vals : url.Values := ∅ in
  let vals := url.Set_ "key" (apikey w) vals in
  let vals := url.Set_ "string" (string_param words) vals in
  r ← exec w (endpoint +:+ "/w3w") vals opts (PositionPtr zero_Position);
  pos ← assert_Position r.1;
  mret (pos, r.2).

(** [func (w *W3W) Position(ll LatLng, opts *Options)], returning [*Position, error] *)
Definition Position_ (w : W3W) (ll : LatLng) (opts : option Options)
  : M (Position * option error) :=
  let vals : url.Values := ∅ in
  let vals := url.Set_ "key" (apikey w) vals in
  let vals := url.Set_ "position" (position_param ll) vals in
  r ← exec w (endpoint +:+ "/position") vals opts (PositionPtr zero_Position);
  pos ← assert_Position r.1;
  mret (pos, r.2).

(** [func (w *W3W) LangsW3W(words What3Words, opts *Options)], returning [*Languages, error] *)
Definition LangsW3W (w : W3W) (words : What3Words) (opts : option Options)
  : M (Languages * option error) :=
  let vals : url.Values := ∅ in
  let vals := url.Set_ "key" (apikey w) vals in
  let vals := url.Set_ "string" (string_param words) vals in
  r ← exec w (endpoint +:+ "/get-languages") vals opts (LanguagesPtr empty_Languages);
  langs ← assert_Languages r.1;
  mret (langs, r.2).

(** [func (w *W3W) LangsPos(ll LatLng, opts *Options)], returning [*Languages, error] *)
Definition LangsPos (w : W3W) (ll : LatLng) (opts : option Options)
  : M (Languages * option error) :=
  let vals : url.Values := ∅ in
  let vals := url.Set_ "key" (apikey w) vals in
  let vals := url.Set_ "position" (position_param ll) vals in
  r ← exec w (endpoint +:+ "/get-languages") vals opts (LanguagesPtr empty_Languages);
  langs ← assert_Languages r.1;
  mret (langs, r.2).

(** *** The four operations, taken together *)

Inductive operation : Type :=
  | OpWords (words : What3Words)
  | OpPosition (ll : LatLng)
  | OpLangsW3W (words : What3Words)
  | OpLangsPos (ll : LatLng).

Inductive result : Type :=
  | ResPosition (p : Position)
  | ResLanguages (l : Languages).

Definition call (w : W3W) (op : operation) (opts : option Options)
  : M (result * option error) :=
  match op with
  | OpWords words => r ← Words w words opts; mret (ResPosition r.1, r.2)
  | OpPosition ll => r ← Position_ w ll opts; mret (ResPosition r.1, r.2)
  | OpLangsW3W words => r ← LangsW3W w words opts; mret (ResLanguages r.1, r.2)
  | OpLangsPos ll => r ← LangsPos w ll opts; mret (ResLanguages r.1, r.2)
  end.

(** The URL an operation addresses and the parameter it adds to [key]. *)
Definition op_url (op : operation) : string :=
  match op with
  | OpWords _ => endpoint +:+ "/w3w"
  | OpPosition _ => endpoint +:+ "/position"
  | OpLangsW3W _ | OpLangsPos _ => endpoint +:+ "/get-languages"
  end.

Definition op_param (op : operation) : string * string :=
  match op with
  | OpWords words | OpLangsW3W words => ("string", string_param words)
  | OpPosition ll | OpLangsPos ll => ("position", position_param ll)
  end.

(** The value of the [lang] parameter under the options [o]. *)
Definition lang_param (o : Options) : string :=
  if String.eqb (Lang o) "" then "en" else Lang o.

(** The options in force: the per-call ones if given, else the client's. *)
Definition resolve (w : W3W) (opts : option Options) : option Options :=
  match opts with Some o => Some o | None => defaults w end.

(** The request an operation builds under the options [o]. *)
Definition op_values (w : W3W) (op : operation) (o : Options) : url.Values :=
  add o (url.Set_ (op_param op).1 (op_param op).2 (url.Set_ "key" (apikey w) ∅)).

Definition op_request (w : W3W) (op : operation) (o : Options) : Request :=
  Header_Add "Accept" "application/json"
    (NewRequest "GET" (op_url op +:+ "?" +:+ url.Encode (op_values w op o))).

(** What an operation hands to [exec] as [in], what it returns of it, and
    the panic of its type assertion on a nil interface. *)
Definition op_target (op : operation) : iface :=
  match op with
  | OpWords _ | OpPosition _ => PositionPtr zero_Position
  | OpLangsW3W _ | OpLangsPos _ => LanguagesPtr empty_Languages
  end.

Definition to_result (i : iface) : result :=
  match i with PositionPtr p => ResPosition p | LanguagesPtr l => ResLanguages l end.

Definition nil_assertion (op : operation) : string :=
  match op with
  | OpWords _ | OpPosition _ =>
      "interface conversion: interface {} is nil, not *w3w.Position"
  | OpLangsW3W _ | OpLangsPos _ =>
      "interface conversion: interface {} is nil, not *w3w.Languages"
  end.

(** The requests sent and the bodies decoded, out of a log. *)
Definition requests (log : list event) : list Request :=
  omap (λ ev, match ev with EvDo r => Some r | EvDecode _ => None end) log.

Definition decodes (log : list event) : list Body :=
  omap (λ ev, match ev with EvDecode b => Some b | EvDo _ => None end) log.

(** One [key=value] of an encoded query, and all of them in the order in
    which [Encode] writes them. *)
Definition segment (key value : string) : string :=
  url.QueryEscape key +:+ "=" +:+ url.QueryEscape value.

Definition segments (v : url.Values) : list string :=
  flat_map (λ k, segment k <$> default [] (v !! k)) (url.sorted_keys v).

(** *** Scenario values *)

(** The client that [New("KEY", nil)] returns, the address and the
    coordinate of the README, and the float64 values nearest to
    [51.484463] and [-0.195405]. *)
Definition scenario_client : W3W := mkW3W "KEY" mkClient (Some defs).

Definition scenario_words : What3Words := mkWords "prom" "cape" "pump".

Definition scenario_lat : strconv.float64 :=
  strconv.Finite false 7245794011942815 (-47).

Definition scenario_lng : strconv.float64 :=
  strconv.Finite true 7040207081490654 (-55).

Definition scenario_ll : LatLng := mkLatLng scenario_lat scenario_lng.

Definition scenario_opts : Options := mkOptions "de" true.

(** [m * 2^e] with [2^52 <= m < 2^53] and [e < 0] is a float64 nearest to
    [p / q]: they differ by at most half a unit in the last place. *)
Definition nearest_to (m : positive) (e : Z) (p q : Z) : bool :=
  ((2 ^ 52 <=? Z.pos m) && (Z.pos m <? 2 ^ 53) && (e <? 0)
   && (2 * Z.abs (Z.pos m * q - p * 2 ^ (- e)) <=? q))%Z.

(** A runtime that doubles the capacity of a slice that is full. *)
Definition doubling (c : nat) : nat := 2 * c.

(** Environments: a transport that answers every request with the body
    [b], and one that fails; the [Position] decoder leaves its target. *)
Definition answering_env (b : Body) : Env :=
  mkEnv (λ _ _, inl (mkResponse 200 b)) (λ _ p, (p, None)) doubling.

Definition refusing_env : Env :=
  mkEnv (λ _ _, inr (ErrTransport "dial tcp: connection refused"))
        (λ _ p, (p, None)) doubling.

(** The URL that scenario 2 of the specification gives for
    [Position(LatLng{51.484463, -0.195405}, &Options{"de", true})]. *)
Definition scenario2_url : string :=
  endpoint +:+ "/position?key=KEY&position=51.484463000000000,-0.195405000000000&lang=de&corners=true".

(** A float64 with magnitude [2^-60]. *)
Definition tiny : strconv.float64 := strconv.Finite false 1 (-60).

(** The value of a float64 with its sign, and the number that the text of
    a sign and [k] decimals [n] denotes. *)
Definition float_value (x : strconv.float64) : QArith_base.Q :=
  if strconv.sign_bit x then QArith_base.Qopp (strconv.magnitude x)
  else strconv.magnitude x.

Definition text_value (neg : bool) (n : Z) (k : nat) : QArith_base.Q :=
  if neg then QArith_base.Qopp (strconv.decimal n k) else strconv.decimal n k.

(** The float64 nearest to [47/11], and the float64 just below it. *)
Definition forty_seven_elevenths : strconv.float64 :=
  strconv.Finite false 4810663238327575 (-50).

Definition just_below : strconv.float64 :=
  strconv.Finite false 4810663238327574 (-50).

(** Bodies: bytes that start with no JSON value (an HTML page), a JSON
    text of the wrong shape, and a JSON object whose [languages] member is
    [null]. *)
Definition garbled_body : Body :=
  Garbled "invalid character '<' looking for beginning of value".

Definition array_body : Body := Document (json.Array []) "".

Definition null_languages_body : Body :=
  Document (json.Object [("languages", json.Null)]) "".

(** An environment that answers with [b] and whose [Position] decoder
    accepts JSON objects only. *)
Definition strict_env (b : Body) : Env :=
  mkEnv (λ _ _, inl (mkResponse 200 b))
        (λ v p, match v with
                | json.Object _ => (p, None)
                | _ => (p, Some (ErrUnmarshalType (json.kind v) "w3w.Position"))
                end)
        doubling.

(** The buffer of [Encode] after it has written the segments [segs]. *)
Definition encoded (buf : string) (segs : list string) : Prop :=
  buf = GoStrings.Join segs "&" ∧ Forall (λ s, s ≠ "") segs.

(** *** Further helpers for statements *)

(** The environment [env] with the status code of every response
    replaced by [code]. *)
Definition with_status (code : Z) (env : Env) : Env :=
  mkEnv (λ log req,
           match env_Do env log req with
           | inl resp => inl (mkResponse code (Response_Body resp))
           | inr err => inr err
           end)
        (env_unmarshal_Position env) (env_grow env).

(** The JSON text of a list of languages, as the service writes it. *)
Definition language_json (l : Language) : json.value :=
  json.Object [("code", json.Str (Code l)); ("name_display", json.Str (Name l))].

Definition languages_json (ls : list Language) : json.value :=
  json.Object [("languages", json.Array (language_json <$> ls))].

(** How often the byte [c] occurs in [s]. *)
Fixpoint count_byte (c : ascii) (s : string) : nat :=
  match s with
  | "" => 0
  | String c' s' => (if Ascii.eqb c c' then 1 else 0) + count_byte c s'
  end.

(** * Properties *)

(** ** White space and [TrimSpace] *)

Section trim_space.
Import GoStrings.

Lemma ascii_of_val (a : ascii) (n : N) : N_of_ascii a = n → a = ascii_of_N n.
Proof. intros <-. by rewrite ascii_N_embedding. Qed.

Ltac bool_props H :=
  repeat first
    [ rewrite orb_true_iff in H | rewrite andb_true_iff in H
    | rewrite N.eqb_eq in H | rewrite N.leb_le in H ].

Lemma is_space1_cases n :
  is_space1 n = true → n ∈ [9; 10; 11; 12; 13; 32]%N.
Proof.
  unfold is_space1, between. intros H. bool_props H.
  assert (n = 9 ∨ n = 10 ∨ n = 11 ∨ n = 12 ∨ n = 13 ∨ n = 32)%N as Hn by lia.
  clear H. repeat (destruct Hn as [-> | Hn]; [compute_done |]). subst. compute_done.
Qed.

Lemma is_space2_cases a b :
  is_space2 a b = true → (a, b) ∈ [(194, 133); (194, 160)]%N.
Proof.
  unfold is_space2. intros H. bool_props H.
  destruct H as [-> [-> | ->]]; compute_done.
Qed.

Lemma is_space3_cases a b c :
  is_space3 a b c = true →
  (a, b, c) ∈ [(225, 154, 128); (226, 128, 128); (226, 128, 129);
               (226, 128, 130); (226, 128, 131); (226, 128, 132);
               (226, 128, 133); (226, 128, 134); (226, 128, 135);
               (226, 128, 136); (226, 128, 137); (226, 128, 138);
               (226, 128, 168); (226, 128, 169); (226, 128, 175);
               (226, 129, 159); (227, 128, 128)]%N.
Proof.
  unfold is_space3, between. intros H. bool_props H.
  assert ((a = 225 ∧ b = 154 ∧ c = 128)
          ∨ (a = 226 ∧ b = 128 ∧ (128 ≤ c ≤ 138 ∨ c = 168 ∨ c = 169 ∨ c = 175))
          ∨ (a = 226 ∧ b = 129 ∧ c = 159)
          ∨ (a = 227 ∧ b = 128 ∧ c = 128))%N as Hn by (clear -H; intuition lia).
  clear H. destruct Hn as [(-> & -> & ->) | [(-> & -> & Hc) | [(-> & -> & ->) | (-> & -> & ->)]]];
    [compute_done | | compute_done | compute_done].
  assert (c = 128 ∨ c = 129 ∨ c = 130 ∨ c = 131 ∨ c = 132 ∨ c = 133 ∨ c = 134
          ∨ c = 135 ∨ c = 136 ∨ c = 137 ∨ c = 138 ∨ c = 168 ∨ c = 169 ∨ c = 175)%N
    as Hc' by lia.
  clear Hc. repeat (destruct Hc' as [-> | Hc']; [compute_done |]). subst. compute_done.
Qed.

Lemma IsSpace_cases r :
  IsSpace r = true →
  r ∈ [9; 10; 11; 12; 13; 32; 133; 160; 5760; 8192; 8193; 8194; 8195; 8196;
       8197; 8198; 8199; 8200; 8201; 8202; 8232; 8233; 8239; 8287; 12288]%N.
Proof.
  unfold IsSpace, between. intros H. bool_props H.
  assert (r = 9 ∨ r = 10 ∨ r = 11 ∨ r = 12 ∨ r = 13 ∨ r = 32 ∨ r = 133
          ∨ r = 160 ∨ r = 5760 ∨ r = 8192 ∨ r = 8193 ∨ r = 8194 ∨ r = 8195
          ∨ r = 8196 ∨ r = 8197 ∨ r = 8198 ∨ r = 8199 ∨ r = 8200 ∨ r = 8201
          ∨ r = 8202 ∨ r = 8232 ∨ r = 8233 ∨ r = 8239 ∨ r = 8287 ∨ r = 12288)%N
    as Hr by lia.
  clear H. repeat (destruct Hr as [-> | Hr]; [compute_done |]). subst. compute_done.
Qed.

Ltac each_member H :=
  repeat (apply elem_of_cons in H as [H | H]); [.. | by apply elem_of_nil in H].

(** A white space rune at the front is stripped, whatever follows. *)
Lemma strip_space_enc r s :
  IsSpace r = true → strip_space (EncodeRune r ++ s) = Some s.
Proof.
  intros H%IsSpace_cases. each_member H; subst r; reflexivity.
Qed.

Lemma strip_space_rev_enc r s :
  IsSpace r = true → strip_space_rev (rev (EncodeRune r) ++ s) = Some s.
Proof.
  intros H%IsSpace_cases. each_member H; subst r; reflexivity.
Qed.

(** What is stripped is the encoding of a white space rune. *)
Lemma strip_space_inv s s' :
  strip_space s = Some s' → ∃ r, IsSpace r = true ∧ s = EncodeRune r ++ s'.
Proof.
  destruct s as [|a s1]; [done|]. simpl.
  destruct (is_space1 (N_of_ascii a)) eqn:H1.
  { intros [= ->]. apply is_space1_cases in H1.
    each_member H1; apply ascii_of_val in H1; subst a.
    - by exists 9%N.
    - by exists 10%N.
    - by exists 11%N.
    - by exists 12%N.
    - by exists 13%N.
    - by exists 32%N. }
  destruct s1 as [|b s2]; [done|].
  destruct (is_space2 (N_of_ascii a) (N_of_ascii b)) eqn:H2.
  { intros [= ->]. apply is_space2_cases in H2.
    each_member H2; injection H2 as Ha%ascii_of_val Hb%ascii_of_val; subst a b.
    - by exists 133%N.
    - by exists 160%N. }
  destruct s2 as [|c s3]; [done|].
  destruct (is_space3 (N_of_ascii a) (N_of_ascii b) (N_of_ascii c)) eqn:H3; [|done].
  intros [= ->]. apply is_space3_cases in H3.
  each_member H3;
    injection H3 as Ha%ascii_of_val Hb%ascii_of_val Hc%ascii_of_val; subst a b c.
  - by exists 5760%N.
  - by exists 8192%N.
  - by exists 8193%N.
  - by exists 8194%N.
  - by exists 8195%N.
  - by exists 8196%N.
  - by exists 8197%N.
  - by exists 8198%N.
  - by exists 8199%N.
  - by exists 8200%N.
  - by exists 8201%N.
  - by exists 8202%N.
  - by exists 8232%N.
  - by exists 8233%N.
  - by exists 8239%N.
  - by exists 8287%N.
  - by exists 12288%N.
Qed.

Lemma strip_space_rev_inv s s' :
  strip_space_rev s = Some s' →
  ∃ r, IsSpace r = true ∧ s = rev (EncodeRune r) ++ s'.
Proof.
  destruct s as [|c s1]; [done|]. simpl.
  destruct (is_space1 (N_of_ascii c)) eqn:H1.
  { intros [= ->]. apply is_space1_cases in H1.
    each_member H1; apply ascii_of_val in H1; subst c.
    - by exists 9%N.
    - by exists 10%N.
    - by exists 11%N.
    - by exists 12%N.
    - by exists 13%N.
    - by exists 32%N. }
  destruct s1 as [|b s2]; [done|].
  destruct (is_space2 (N_of_ascii b) (N_of_ascii c)) eqn:H2.
  { intros [= ->]. apply is_space2_cases in H2.
    each_member H2; injection H2 as Hb%ascii_of_val Hc%ascii_of_val; subst b c.
    - by exists 133%N.
    - by exists 160%N. }
  destruct s2 as [|a s3]; [done|].
  destruct (is_space3 (N_of_ascii a) (N_of_ascii b) (N_of_ascii c)) eqn:H3; [|done].
  intros [= ->]. apply is_space3_cases in H3.
  each_member H3;
    injection H3 as Ha%ascii_of_val Hb%ascii_of_val Hc%ascii_of_val; subst a b c.
  - by exists 5760%N.
  - by exists 8192%N.
  - by exists 8193%N.
  - by exists 8194%N.
  - by exists 8195%N.
  - by exists 8196%N.
  - by exists 8197%N.
  - by exists 8198%N.
  - by exists 8199%N.
  - by exists 8200%N.
  - by exists 8201%N.
  - by exists 8202%N.
  - by exists 8232%N.
  - by exists 8233%N.
  - by exists 8239%N.
  - by exists 8287%N.
  - by exists 12288%N.
Qed.

(** [trim_left] strips runes one at a time. *)
Lemma trim_left_unfold s :
  trim_left s = match strip_space s with Some s' => trim_left s' | None => s end.
Proof.
  destruct s as [|a [|b [|c s3]]]; simpl; [done | | |].
  - by destruct (is_space1 _).
  - destruct (is_space1 _); [done|]. by destruct (is_space2 _ _).
  - destruct (is_space1 _); [done|]. destruct (is_space2 _ _); [done|].
    by destruct (is_space3 _ _ _).
Qed.

Lemma trim_left_rev_unfold s :
  trim_left_rev s
  = match strip_space_rev s with Some s' => trim_left_rev s' | None => s end.
Proof.
  destruct s as [|a [|b [|c s3]]]; simpl; [done | | |].
  - by destruct (is_space1 _).
  - destruct (is_space1 _); [done|]. by destruct (is_space2 _ _).
  - destruct (is_space1 _); [done|]. destruct (is_space2 _ _); [done|].
    by destruct (is_space3 _ _ _).
Qed.

Lemma strip_space_shorter s s' : strip_space s = Some s' → length s' < length s.
Proof.
  destruct s as [|a [|b [|c s3]]]; simpl; [done | | |];
    repeat case_match; intros; simplify_eq/=; lia.
Qed.

Lemma strip_space_rev_shorter s s' :
  strip_space_rev s = Some s' → length s' < length s.
Proof.
  destruct s as [|a [|b [|c s3]]]; simpl; [done | | |];
    repeat case_match; intros; simplify_eq/=; lia.
Qed.

Lemma AllSpace_app s1 s2 : AllSpace s1 → AllSpace s2 → AllSpace (s1 ++ s2).
Proof.
  induction 1 as [|r s Hr _ IH]; intros H2; [done|].
  rewrite <-app_assoc. constructor; auto.
Qed.

Lemma AllSpace_one r : IsSpace r = true → AllSpace (EncodeRune r).
Proof.
  intros Hr. rewrite <-(app_nil_r (EncodeRune r)). constructor; [done | constructor].
Qed.

(** What [trim_left] leaves does not start with white space. *)
Lemma trim_left_stripped s : strip_space (trim_left s) = None.
Proof.
  remember (length s) as n eqn:Hn. revert s Hn.
  induction n as [n IH] using lt_wf_ind. intros s ->.
  rewrite trim_left_unfold. destruct (strip_space s) as [s'|] eqn:Hs; [|done].
  apply (IH (length s')); [by apply strip_space_shorter | done].
Qed.

Lemma trim_left_nil s : trim_left s = [] → AllSpace s.
Proof.
  remember (length s) as n eqn:Hn. revert s Hn.
  induction n as [n IH] using lt_wf_ind. intros s ->.
  rewrite trim_left_unfold. destruct (strip_space s) as [s'|] eqn:Hs.
  - intros Hs'. apply strip_space_inv in Hs as Hinv. destruct Hinv as (r & Hr & ->).
    constructor; [done|].
    apply (IH (length s')); [by apply strip_space_shorter | done | done].
  - intros ->. constructor.
Qed.

Lemma trim_left_rev_nil s : trim_left_rev s = [] → AllSpace (rev s).
Proof.
  remember (length s) as n eqn:Hn. revert s Hn.
  induction n as [n IH] using lt_wf_ind. intros s ->.
  rewrite trim_left_rev_unfold. destruct (strip_space_rev s) as [s'|] eqn:Hs.
  - intros Hs'. apply strip_space_rev_inv in Hs as Hinv.
    destruct Hinv as (r & Hr & ->).
    rewrite rev_app_distr, rev_involutive. apply AllSpace_app.
    + apply (IH (length s')); [by apply strip_space_rev_shorter | done | done].
    + by apply AllSpace_one.
  - intros ->. constructor.
Qed.

Lemma AllSpace_trim_left s : AllSpace s → trim_left s = [].
Proof.
  induction 1 as [|r s Hr _ IH]; [done|].
  by rewrite trim_left_unfold, strip_space_enc.
Qed.

Lemma AllSpace_strip s : AllSpace s → s = [] ∨ is_Some (strip_space s).
Proof.
  destruct 1 as [|r s Hr _]; [by left | right].
  by rewrite strip_space_enc.
Qed.

(** [TrimSpace] returns the empty string on white space, and only there. *)
Lemma TrimSpace_empty_iff (s : string) :
  TrimSpace s = "" ↔ WhitespaceOnly s.
Proof.
  unfold TrimSpace, WhitespaceOnly, trim_right.
  set (l := list_ascii_of_string s). split.
  - intros H. apply (f_equal list_ascii_of_string) in H.
    rewrite list_ascii_of_string_of_list_ascii in H. simpl in H.
    apply (f_equal (@rev ascii)) in H. rewrite rev_involutive in H. simpl in H.
    apply trim_left_rev_nil in H. rewrite rev_involutive in H.
    destruct (AllSpace_strip _ H) as [Hnil | [x Hx]].
    + by apply trim_left_nil.
    + by rewrite trim_left_stripped in Hx.
  - intros H. by rewrite (AllSpace_trim_left _ H).
Qed.

End trim_space.

(** ** Strings and [Join] *)

Section strings.
Import GoStrings.

Lemma app_cons_s c (s1 s2 : string) : String c s1 +:+ s2 = String c (s1 +:+ s2).
Proof. reflexivity. Qed.

Lemma app_nil_l_s (s : string) : "" +:+ s = s.
Proof. reflexivity. Qed.

Lemma app_assoc_s (s1 s2 s3 : string) : (s1 +:+ s2) +:+ s3 = s1 +:+ (s2 +:+ s3).
Proof.
  induction s1 as [|c s1 IH]; [done|]. by rewrite !app_cons_s, IH.
Qed.

Lemma app_nil_r_s (s : string) : s +:+ "" = s.
Proof. induction s as [|c s IH]; [done|]. by rewrite app_cons_s, IH. Qed.

Lemma app_length_s (s1 s2 : string) :
  String.length (s1 +:+ s2) = String.length s1 + String.length s2.
Proof.
  induction s1 as [|c s1 IH]; [done|]. rewrite app_cons_s. simpl. by rewrite IH.
Qed.

Lemma join_rest_app sep l1 l2 :
  join_rest sep (l1 ++ l2) = join_rest sep l1 +:+ join_rest sep l2.
Proof.
  induction l1 as [|x l1 IH]; simpl; [done|].
  by rewrite IH, !app_assoc_s.
Qed.

Lemma Join_snoc sep x l y :
  Join ((x :: l) ++ [y]) sep = Join (x :: l) sep +:+ sep +:+ y.
Proof.
  simpl. rewrite join_rest_app. simpl. by rewrite app_nil_r_s, app_assoc_s.
Qed.

(** Three words are joined by two separators and nothing else. *)
Lemma Join_three a b c sep :
  Join [a; b; c] sep = a +:+ sep +:+ b +:+ sep +:+ c.
Proof. simpl. by rewrite app_nil_r_s. Qed.

End strings.

(** ** [Encode] *)

Section encode.
Import GoStrings url.

Lemma segment_nonempty k x : segment k x ≠ "".
Proof. unfold segment. by destruct (QueryEscape k). Qed.

Lemma write_pair_encoded k buf segs x :
  encoded buf segs →
  encoded (write_pair (QueryEscape k) buf x) (segs ++ [segment k x]).
Proof.
  intros [-> Hne]. split.
  - unfold write_pair. destruct segs as [|s0 segs].
    { simpl. by rewrite app_nil_r_s. }
    rewrite Join_snoc.
    assert ((0 <? String.length (Join (s0 :: segs) "&"))%nat = true) as ->.
    { apply Nat.ltb_lt. simpl. rewrite app_length_s.
      apply Forall_cons in Hne as [Hs0 _]. destruct s0; [done | simpl; lia]. }
    by rewrite app_assoc_s.
  - apply Forall_app. split; [done|]. repeat constructor. apply segment_nonempty.
Qed.

Lemma write_values_encoded k xs buf segs :
  encoded buf segs →
  encoded (foldl (write_pair (QueryEscape k)) buf xs) (segs ++ (segment k <$> xs)).
Proof.
  revert buf segs. induction xs as [|x xs IH]; intros buf segs H; simpl.
  - by rewrite app_nil_r.
  - rewrite (cons_middle (segment k x)), app_assoc.
    by apply IH, write_pair_encoded.
Qed.

Lemma write_keys_encoded v ks buf segs :
  encoded buf segs →
  encoded (foldl (write_key v) buf ks)
          (segs ++ flat_map (λ k, segment k <$> default [] (v !! k)) ks).
Proof.
  revert buf segs. induction ks as [|k ks IH]; intros buf segs H; simpl.
  - by rewrite app_nil_r.
  - rewrite app_assoc. by apply IH, write_values_encoded.
Qed.

Lemma upperhex_unreserved n : shouldEscape (upperhex n) = false.
Proof.
  destruct n as [|p]; [done|].
  do 5 (try (destruct p as [p|p|]; try done)).
Qed.

Lemma list_ascii_of_string_app (s1 s2 : string) :
  list_ascii_of_string (s1 +:+ s2)
  = list_ascii_of_string s1 ++ list_ascii_of_string s2.
Proof.
  induction s1 as [|c s1 IH]; [done|]. rewrite app_cons_s. simpl. by rewrite IH.
Qed.

(** An escaped text is made of unreserved bytes, [%] and [+]: it holds no
    [&], no [=] and no control byte. *)
Lemma QueryEscape_bytes s :
  Forall (λ c, escaped_byte c = true) (list_ascii_of_string (QueryEscape s)).
Proof.
  induction s as [|c s IH]; [constructor|].
  cbn [QueryEscape]. rewrite list_ascii_of_string_app. apply Forall_app.
  split; [|done]. unfold escape_byte.
  destruct (shouldEscape c) eqn:Hc.
  - destruct (Ascii.eqb c " "); repeat constructor;
      unfold escaped_byte; by rewrite upperhex_unreserved.
  - repeat constructor. unfold escaped_byte. by rewrite Hc.
Qed.

Lemma escaped_byte_plain c :
  escaped_byte c = true →
  c ≠ "&"%char ∧ c ≠ "="%char ∧ (32 < N_of_ascii c < 127)%N.
Proof.
  destruct c as [[] [] [] [] [] [] [] []]; vm_compute; intros H;
    (discriminate H || (split_and!; (congruence || lia || done))).
Qed.

Example Encode_example :
  Encode (Set_ "lang" "de" (Set_ "position" "1,2" (Set_ "key" "K Y" ∅)))
  = "key=K+Y&lang=de&position=1%2C2".
Proof. by vm_compute. Qed.

(** [Encode] writes the segments in order, with [&] between them. *)
Lemma Encode_join v : Encode v = Join (segments v) "&".
Proof.
  unfold Encode, segments.
  by destruct (write_keys_encoded v (sorted_keys v) "" []) as [-> _].
Qed.

(** The keys are written in increasing order, each key of the map once. *)
Lemma sorted_keys_sorted (v : Values) : StronglySorted String.le (sorted_keys v).
Proof. unfold sorted_keys. apply (StronglySorted_merge_sort _). Qed.

Lemma sorted_keys_perm (v : Values) : sorted_keys v ≡ₚ (map_to_list v).*1.
Proof. unfold sorted_keys. apply merge_sort_Permutation. Qed.

Lemma sorted_keys_NoDup (v : Values) : NoDup (sorted_keys v).
Proof. rewrite sorted_keys_perm. apply NoDup_fst_map_to_list. Qed.

Lemma elem_of_sorted_keys (v : Values) k : k ∈ sorted_keys v ↔ is_Some (v !! k).
Proof.
  rewrite sorted_keys_perm, list_elem_of_fmap. split.
  - intros [[k' x] [-> Hx%elem_of_map_to_list]]. by exists x.
  - intros [x Hx]. exists (k, x). by rewrite elem_of_map_to_list.
Qed.

End encode.

(** ** Running [exec] and the operations *)

Section running.

Lemma exec_run w u vals opts in_ env log :
  exec w u vals opts in_ env log =
  match resolve w opts with
  | None => (Panicked nil_dereference, log)
  | Some o =>
      let req := Header_Add "Accept" "application/json"
                   (NewRequest "GET" (u +:+ "?" +:+ url.Encode (add o vals))) in
      match env_Do env log req with
      | inr err => (Returned (None, Some err), log ++ [EvDo req])
      | inl resp =>
          let d := decode_value env (Response_Body resp) in_ in
          (Returned match d.2 with
                    | Some err => (None, Some err)
                    | None => (Some d.1, None)
                    end,
           log ++ [EvDo req; EvDecode (Response_Body resp)])
      end
  end.
Proof.
  unfold exec, resolve, mbind, M_bind, mret, M_ret, panic, client_Do, Decode.
  destruct opts as [o|]; [|destruct (defaults w) as [o|]; [|done]];
    simpl; (destruct (env_Do _ _ _) as [resp|err]; [|done]);
    rewrite <-app_assoc; simpl; by destruct (decode_value _ _ _).2.
Qed.

(** The kind of pointer in [in] survives decoding. *)
Lemma decode_value_kind env b i :
  match i, (decode_value env b i).1 with
  | PositionPtr _, PositionPtr _ | LanguagesPtr _, LanguagesPtr _ => True
  | _, _ => False
  end.
Proof.
  destruct b as [why|v], i as [p|l]; simpl; try done.
  - by destruct (env_unmarshal_Position _ _ _).
  - by destruct (unmarshal_Languages _ _).
Qed.

Lemma call_run w op opts env log :
  call w op opts env log =
  match resolve w opts with
  | None => (Panicked nil_dereference, log)
  | Some o =>
      let req := op_request w op o in
      match env_Do env log req with
      | inr err => (Panicked (nil_assertion op), log ++ [EvDo req])
      | inl resp =>
          let d := decode_value env (Response_Body resp) (op_target op) in
          (match d.2 with
           | Some err => Panicked (nil_assertion op)
           | None => Returned (to_result d.1, None)
           end,
           log ++ [EvDo req; EvDecode (Response_Body resp)])
      end
  end.
Proof.
  destruct op; unfold call, Words, Position_, LangsW3W, LangsPos;
    unfold mbind at 1 2, M_bind; rewrite exec_run;
    (destruct (resolve w opts) as [o|]; [|done]); simpl;
    unfold op_request, op_values; simpl;
    (destruct (env_Do _ _ _) as [resp|err]; [|done]); simpl;
    match goal with
    | |- context [decode_value ?e ?b ?i] =>
        pose proof (decode_value_kind e b i) as Hk; simpl in Hk;
        destruct (decode_value e b i) as [[p|l] [err|]]
    end; done.
Qed.

End running.

(** ** The query of the four operations, spelled out *)

Section query.
Import GoStrings url.

Ltac eval_sorted_keys :=
  match goal with
  | |- context [sorted_keys ?v] =>
      let ks := eval vm_compute in (sorted_keys v) in
      replace (sorted_keys v) with ks by (vm_compute; reflexivity)
  end.

Lemma add_lang o v : add o v = (if Corners o then Set_ "corners" "true" else id)
                                 (Set_ "lang" (lang_param o) v).
Proof. unfold add, lang_param. by destruct (String.eqb _ _), (Corners o). Qed.

Lemma segments_params (pname : string) k pv o :
  pname = "string" ∨ pname = "position" →
  segments (add o (Set_ pname pv (Set_ "key" k ∅)))
  = (if Corners o then ["corners=true"] else [])
    ++ ["key=" +:+ QueryEscape k; "lang=" +:+ QueryEscape (lang_param o);
        pname +:+ "=" +:+ QueryEscape pv].
Proof.
  rewrite add_lang. generalize (lang_param o). intros l.
  unfold segments.
  intros [-> | ->]; destruct (Corners o); eval_sorted_keys; reflexivity.
Qed.

End query.

(** ** Fixed-point texts *)

Section format.
Import strconv.
Local Open Scope Z_scope.

Lemma digit_val_char d : 0 ≤ d < 10 → digit_val (digit_char d) = Some d.
Proof.
  intros Hd.
  assert (d = 0 ∨ d = 1 ∨ d = 2 ∨ d = 3 ∨ d = 4 ∨ d = 5 ∨ d = 6 ∨ d = 7
          ∨ d = 8 ∨ d = 9) as H by lia.
  repeat (destruct H as [-> | H]; [reflexivity|]). by subst.
Qed.

Lemma read_digits_digit d s acc count :
  0 ≤ d < 10 →
  read_digits (String (digit_char d) s) acc count
  = read_digits s (10 * acc + d) (S count).
Proof. intros Hd. simpl. by rewrite digit_val_char. Qed.

(** Reading [k] digits written by [frac_digits]. *)
Lemma read_frac_digits k n tail acc count :
  0 ≤ n →
  read_digits (frac_digits k n tail) acc count
  = read_digits tail (acc * 10 ^ Z.of_nat k + n `mod` 10 ^ Z.of_nat k)
                (count + k)%nat.
Proof.
  revert n tail. induction k as [|k IH]; intros n tail Hn.
  - simpl. rewrite Z.mod_1_r, Nat.add_0_r. f_equal. lia.
  - cbn [frac_digits]. rewrite IH by (apply Z.div_pos; lia).
    rewrite read_digits_digit by (apply Z.mod_pos_bound; lia).
    rewrite Nat2Z.inj_succ, Z.pow_succ_r by lia.
    rewrite (Z.rem_mul_r n 10 (10 ^ Z.of_nat k)) by lia.
    f_equal; lia.
Qed.

Lemma int_digits_go_S fuel n acc :
  int_digits_go (S fuel) n acc
  = if n `div` 10 =? 0 then String (digit_char (n `mod` 10)) acc
    else int_digits_go fuel (n `div` 10) (String (digit_char (n `mod` 10)) acc).
Proof. reflexivity. Qed.

(** Reading the digits written by [int_digits_go]: at least one. *)
Lemma read_int_digits fuel n tail acc count :
  0 ≤ n < 10 ^ Z.of_nat (S fuel) →
  ∃ j, read_digits (int_digits_go (S fuel) n tail) acc count
       = read_digits tail (acc * 10 ^ Z.of_nat (S j) + n) (count + S j)%nat.
Proof.
  revert n tail. induction fuel as [|fuel IH]; intros n tail Hn.
  - exists 0%nat. change (10 ^ Z.of_nat 1) with 10 in *.
    rewrite int_digits_go_S, Z.div_small by lia. simpl (0 =? 0).
    cbv iota. rewrite read_digits_digit by (apply Z.mod_pos_bound; lia).
    rewrite Z.mod_small by lia. f_equal; lia.
  - rewrite int_digits_go_S. destruct (n `div` 10 =? 0) eqn:Hq.
    + exists 0%nat. apply Z.eqb_eq in Hq.
      rewrite read_digits_digit by (apply Z.mod_pos_bound; lia).
      change (10 ^ Z.of_nat 1) with 10.
      pose proof (Z.div_mod n 10). f_equal; lia.
    + destruct (IH (n `div` 10) (String (digit_char (n `mod` 10)) tail)) as [j Hj].
      { split; [apply Z.div_pos; lia|]. apply Z.div_lt_upper_bound; [lia|].
        rewrite <-Z.pow_succ_r, <-Nat2Z.inj_succ by lia. lia. }
      exists (S j). rewrite Hj.
      rewrite read_digits_digit by (apply Z.mod_pos_bound; lia).
      rewrite (Nat2Z.inj_succ (S j)), Z.pow_succ_r by lia.
      pose proof (Z.div_mod n 10). f_equal; lia.
Qed.

Lemma int_digits_fuel n : 0 ≤ n → n < 10 ^ Z.of_nat (S (Z.to_nat (Z.log2 n))).
Proof.
  intros Hn. rewrite Nat2Z.inj_succ, Z2Nat.id by apply Z.log2_nonneg.
  destruct (decide (n = 0)) as [-> | Hn0]; [done|].
  pose proof (Z.log2_spec n ltac:(lia)) as [_ H2].
  eapply Z.lt_le_trans; [exact H2|].
  apply Z.pow_le_mono_l. lia.
Qed.

(** The texts of [int_digits] start with a digit, so not with a sign. *)
Lemma int_digits_go_head fuel n acc :
  (fuel = 0%nat → starts_with_digit acc) →
  starts_with_digit (int_digits_go fuel n acc).
Proof.
  revert n acc. induction fuel as [|fuel IH]; intros n acc Hacc; [by apply Hacc|].
  rewrite int_digits_go_S.
  assert (starts_with_digit (String (digit_char (n `mod` 10)) acc)) as Hd.
  { simpl. rewrite digit_val_char by (apply Z.mod_pos_bound; lia). by eexists. }
  destruct (n `div` 10 =? 0); [done|]. by apply IH.
Qed.

Lemma unsigned_head s :
  starts_with_digit s →
  match s with String "-" s' => (true, s') | _ => (false, s) end = (false, s).
Proof.
  destruct s as [|c s]; [done|]. simpl. intros [d Hd].
  destruct c as [[] [] [] [] [] [] [] []]; try done.
Qed.

(** A fixed-point text reads back as the number it was written from. *)
Lemma read_fixed_fixed neg prec n :
  0 ≤ n → read_fixed (sign neg +:+ fixed prec n) = Some (neg, n, prec).
Proof.
  intros Hn. unfold read_fixed.
  set (p := 10 ^ Z.of_nat prec). assert (0 < p) as Hp by (apply Z.pow_pos_nonneg; lia).
  assert (match sign neg +:+ fixed prec n with
          | String "-" s' => (true, s')
          | _ => (false, sign neg +:+ fixed prec n)
          end = (neg, fixed prec n)) as ->.
  { destruct neg; [done|]. change (sign false +:+ ?s) with s.
    apply unsigned_head, int_digits_go_head. done. }
  unfold fixed, int_digits. fold p.
  destruct (read_int_digits (Z.to_nat (Z.log2 (n `div` p))) (n `div` p)
              (String "." (frac_digits prec (n `mod` p) "")) 0 0%nat) as [j ->].
  { split; [apply Z.div_pos; lia|]. apply int_digits_fuel, Z.div_pos; lia. }
  change (read_digits (String "." ?s) ?a ?k) with (a, k, String "." s).
  cbv iota beta. rewrite Nat.add_0_l. cbv iota beta.
  rewrite read_frac_digits by (apply Z.mod_pos_bound; lia).
  fold p. rewrite Z.mod_mod by lia. simpl. rewrite Z.mul_0_l, Z.add_0_l.
  by rewrite (Z.mul_comm _ p), <-(Z.div_mod n p) by lia.
Qed.

(** [round_half_even] is within half a unit of the quotient. *)
Lemma round_half_even_close num den :
  0 < den → 0 ≤ num →
  0 ≤ round_half_even num den
  ∧ 2 * Z.abs (round_half_even num den * den - num) ≤ den.
Proof.
  intros Hden Hnum. unfold round_half_even.
  pose proof (Z.div_mod num den ltac:(lia)) as Hdm.
  pose proof (Z.mod_pos_bound num den Hden) as Hr.
  pose proof (Z.div_pos num den Hnum Hden) as Hq.
  destruct (Z.compare_spec (2 * (num `mod` den)) den) as [Hc | Hc | Hc];
    [destruct (Z.even _) | |]; nia.
Qed.

Lemma Q_close n m den P :
  0 < den → 0 < P → 2 * Z.abs (n * den - m * P) ≤ den →
  QArith_base.Qle
    (Qabs.Qabs (QArith_base.Qminus (QArith_base.Qmake n (Z.to_pos P))
                                   (QArith_base.Qmake m (Z.to_pos den))))
    (QArith_base.Qmake 1 (2 * Z.to_pos P)).
Proof.
  intros Hden HP H. apply Qabs.Qabs_Qle_condition.
  unfold QArith_base.Qle, QArith_base.Qminus, QArith_base.Qplus, QArith_base.Qopp.
  cbn [QArith_base.Qnum QArith_base.Qden].
  rewrite !Pos2Z.inj_mul, !Z2Pos.id by lia.
  split; nia.
Qed.

Lemma scaled_nonneg prec m e : 0 ≤ scaled prec m e.
Proof.
  unfold scaled. destruct (0 <=? e) eqn:He.
  - apply Z.leb_le in He. apply Z.mul_nonneg_nonneg; [|apply Z.pow_nonneg; lia].
    apply Z.mul_nonneg_nonneg; [lia | apply Z.pow_nonneg; lia].
  - apply round_half_even_close.
    + apply Z.pow_pos_nonneg; lia.
    + apply Z.mul_nonneg_nonneg; [lia | apply Z.pow_nonneg; lia].
Qed.

(** The text of a number reads back, with its sign and [prec] decimals, as
    a decimal within half a unit of the last decimal of the number. *)
Lemma Sprintf_f_reads_back prec x :
  is_finite x = true →
  ∃ n, read_fixed (Sprintf_f prec x) = Some (sign_bit x, n, prec)
       ∧ QArith_base.Qle
           (Qabs.Qabs (QArith_base.Qminus (decimal n prec) (magnitude x)))
           (half_unit prec).
Proof.
  destruct x as [| neg | neg | neg m e]; try done; intros _.
  - exists 0. split; [by apply read_fixed_fixed|]. done.
  - exists (scaled prec m e). split.
    { apply read_fixed_fixed, scaled_nonneg. }
    assert (0 < 10 ^ Z.of_nat prec) as HP by (apply Z.pow_pos_nonneg; lia).
    unfold magnitude, decimal, half_unit, scaled, QArith_base.inject_Z.
    destruct (0 <=? e) eqn:He.
    + apply Z.leb_le in He. change 1%positive with (Z.to_pos 1).
      apply Q_close; [lia | done |].
      rewrite Z.mul_1_r, Z.sub_diag. simpl. lia.
    + apply Z.leb_gt in He.
      assert (0 < 2 ^ (- e)) as Hden by (apply Z.pow_pos_nonneg; lia).
      apply Q_close; [done | done |].
      apply round_half_even_close; [done | lia].
Qed.

End format.

(** ** Texts that escaping leaves as they are *)

Section escaping.
Import GoStrings url.

Lemma QueryEscape_app s1 s2 :
  QueryEscape (s1 +:+ s2) = QueryEscape s1 +:+ QueryEscape s2.
Proof.
  induction s1 as [|c s1 IH]; [done|].
  rewrite app_cons_s. cbn [QueryEscape]. by rewrite IH, app_assoc_s.
Qed.

Lemma QueryEscape_unreserved c s :
  shouldEscape c = false → QueryEscape s = s →
  QueryEscape (String c s) = String c s.
Proof.
  intros Hc Hs. cbn [QueryEscape]. unfold escape_byte. by rewrite Hc, Hs.
Qed.

Lemma digit_char_unreserved d :
  (0 ≤ d < 10)%Z → shouldEscape (strconv.digit_char d) = false.
Proof.
  intros Hd.
  assert (d = 0 ∨ d = 1 ∨ d = 2 ∨ d = 3 ∨ d = 4 ∨ d = 5 ∨ d = 6 ∨ d = 7
          ∨ d = 8 ∨ d = 9)%Z as H by lia.
  repeat (destruct H as [-> | H]; [reflexivity|]). by subst.
Qed.

Lemma frac_digits_plain k n acc :
  QueryEscape acc = acc →
  QueryEscape (strconv.frac_digits k n acc) = strconv.frac_digits k n acc.
Proof.
  revert n acc. induction k as [|k IH]; intros n acc Hacc; [done|].
  cbn [strconv.frac_digits]. apply IH, QueryEscape_unreserved; [|done].
  apply digit_char_unreserved, Z.mod_pos_bound. lia.
Qed.

Lemma int_digits_go_plain fuel n acc :
  QueryEscape acc = acc →
  QueryEscape (strconv.int_digits_go fuel n acc) = strconv.int_digits_go fuel n acc.
Proof.
  revert n acc. induction fuel as [|fuel IH]; intros n acc Hacc; [done|].
  rewrite int_digits_go_S.
  assert (QueryEscape (String (strconv.digit_char (n `mod` 10)) acc)
          = String (strconv.digit_char (n `mod` 10)) acc) as Hd.
  { apply QueryEscape_unreserved; [|done].
    apply digit_char_unreserved, Z.mod_pos_bound. lia. }
  destruct (_ =? _)%Z; [done | by apply IH].
Qed.

Lemma Sprintf_f_plain prec x :
  strconv.is_finite x = true →
  QueryEscape (strconv.Sprintf_f prec x) = strconv.Sprintf_f prec x.
Proof.
  assert (∀ neg n, QueryEscape (strconv.sign neg +:+ strconv.fixed prec n)
                   = strconv.sign neg +:+ strconv.fixed prec n) as H.
  { intros neg n. rewrite QueryEscape_app. f_equal; [by destruct neg|].
    unfold strconv.fixed, strconv.int_digits.
    apply int_digits_go_plain, QueryEscape_unreserved; [done|].
    by apply frac_digits_plain. }
  destruct x; try done; intros _; apply H.
Qed.

(** A float64 that is at least as near to a number as [x] is, is within
    twice the distance of [x] from it. *)
Lemma near_as_close (t fx fy h : QArith_base.Q) :
  QArith_base.Qle (Qabs.Qabs (QArith_base.Qminus t fx)) h →
  QArith_base.Qle (Qabs.Qabs (QArith_base.Qminus t fy))
                  (Qabs.Qabs (QArith_base.Qminus t fx)) →
  QArith_base.Qle (Qabs.Qabs (QArith_base.Qminus fy fx)) (QArith_base.Qplus h h).
Proof.
  intros H1 H2. pose proof (QArith_base.Qle_trans _ _ _ H2 H1) as H3.
  apply Qabs.Qabs_Qle_condition in H1, H3. apply Qabs.Qabs_Qle_condition.
  split; Lqa.lra.
Qed.

Lemma signed_close (neg : bool) (d m h : QArith_base.Q) :
  QArith_base.Qle (Qabs.Qabs (QArith_base.Qminus d m)) h →
  QArith_base.Qle
    (Qabs.Qabs (QArith_base.Qminus (if neg then QArith_base.Qopp d else d)
                                   (if neg then QArith_base.Qopp m else m))) h.
Proof.
  intros H. destruct neg; [|done].
  apply Qabs.Qabs_Qle_condition in H. apply Qabs.Qabs_Qle_condition.
  split; Lqa.lra.
Qed.

End escaping.

(** ** The claims *)

Section claims.
Import GoStrings url.

Lemma requests_app l1 l2 : requests (l1 ++ l2) = requests l1 ++ requests l2.
Proof. apply omap_app. Qed.

(** Every operation sends exactly one request, the one built from the
    options in force. *)
Lemma call_requests w op opts o env log :
  resolve w opts = Some o →
  requests (call w op opts env log).2 = requests log ++ [op_request w op o].
Proof.
  intros Ho. rewrite call_run, Ho. simpl.
  destruct (env_Do _ _ _); simpl; by rewrite requests_app.
Qed.

Lemma URL_op_request w op o :
  URL (op_request w op o)
  = op_url op +:+ "?" +:+
    Join ((if Corners o then ["corners=true"] else [])
          ++ ["key=" +:+ QueryEscape (apikey w);
              "lang=" +:+ QueryEscape (lang_param o);
              (op_param op).1 +:+ "=" +:+ QueryEscape (op_param op).2]) "&".
Proof.
  unfold op_request, op_values. simpl. rewrite Encode_join, segments_params; [done|].
  destruct op; auto.
Qed.

Lemma TrimSpace_eqb k :
  (String.eqb k "" || String.eqb (TrimSpace k) "") = true ↔ WhitespaceOnly k.
Proof.
  rewrite orb_true_iff, !String.eqb_eq, TrimSpace_empty_iff. split; [|auto].
  intros [-> | H]; [constructor | done].
Qed.

(** C5: [New] fails with [ErrNoAPIKey] exactly when the key is empty or
    made of white space only; for every other key it succeeds, whatever the
    defaults, and the client holds that key; so no client that [New] returns
    has an empty or white-space-only key. *)
Theorem New_validates_key_C5 (k : string) (d : option Options) :
  (New k d = (None, Some ErrNoAPIKey) ↔ k = "" ∨ WhitespaceOnly k)
  ∧ (New k d = (Some (mkW3W k mkClient (Some (default defs d))), None)
     ↔ ¬ (k = "" ∨ WhitespaceOnly k))
  ∧ (∀ w e, New k d = (Some w, e) →
            apikey w = k ∧ e = None ∧ ¬ (apikey w = "" ∨ WhitespaceOnly (apikey w))).
Proof.
  assert (k = "" ∨ WhitespaceOnly k ↔ WhitespaceOnly k) as Hor.
  { split; [|auto]. intros [-> | H]; [constructor | done]. }
  rewrite Hor. unfold New.
  destruct (String.eqb k "" || String.eqb (TrimSpace k) "") eqn:Hk.
  - apply TrimSpace_eqb in Hk. split_and!; [done | | done].
    split; [by destruct d | done].
  - assert (¬ WhitespaceOnly k) as Hn.
    { intros H%TrimSpace_eqb. congruence. }
    split_and!.
    + split; [by destruct d | done].
    + by destruct d.
    + intros w e Hw. assert (apikey w = k ∧ e = None) as [Hwk ->].
      { by destruct d; simplify_eq/=. }
      rewrite Hwk. split_and!; [done | done |]. by rewrite Hor.
Qed.

(** C7: the [string] parameter of [Words] and [LangsW3W] is the three words
    with one [.] between the first and the second and one between the second
    and the third, and nothing before or after; it is what the request
    carries. *)
Theorem string_parameter_C7 w words opts o env log op :
  op = OpWords words ∨ op = OpLangsW3W words →
  resolve w opts = Some o →
  string_param words = word0 words +:+ "." +:+ word1 words +:+ "." +:+ word2 words
  ∧ op_values w op o !! "string" = Some [string_param words]
  ∧ ∃ r, requests (call w op opts env log).2 = requests log ++ [r]
       ∧ URL r = op_url op +:+ "?" +:+
           Join ((if Corners o then ["corners=true"] else [])
                 ++ ["key=" +:+ QueryEscape (apikey w);
                     "lang=" +:+ QueryEscape (lang_param o);
                     "string=" +:+ QueryEscape
                        (word0 words +:+ "." +:+ word1 words +:+ "." +:+ word2 words)])
                "&".
Proof.
  intros Hop Ho.
  assert (string_param words
          = word0 words +:+ "." +:+ word1 words +:+ "." +:+ word2 words) as Hj.
  { unfold string_param, words_slice. apply Join_three. }
  split_and!; [done | |].
  - unfold op_values, add, Set_.
    destruct Hop as [-> | ->]; simpl;
      destruct (String.eqb _ _), (Corners o); by simplify_map_eq.
  - exists (op_request w op o). split; [by apply call_requests|].
    rewrite URL_op_request, <-Hj. by destruct Hop as [-> | ->].
Qed.

Lemma string_parameter_C7_witness :
  (OpWords scenario_words = OpWords scenario_words
   ∨ OpWords scenario_words = OpLangsW3W scenario_words)
  ∧ resolve scenario_client None = Some defs
  ∧ string_param scenario_words = "prom.cape.pump"
  ∧ ∃ r, requests (call scenario_client (OpWords scenario_words) None
                     refusing_env []).2 = [r]
       ∧ URL r = "https://api.what3words.com/w3w?key=KEY&lang=en&string=prom.cape.pump".
Proof.
  split; [by left|]. split; [reflexivity|].
  destruct (string_parameter_C7 scenario_client scenario_words None defs
              refusing_env [] (OpWords scenario_words) (or_introl eq_refl) eq_refl)
    as (H1 & _ & r & H2 & H3).
  split; [exact H1|]. exists r. split; [exact H2 | exact H3].
Defined.

(** C6: under the options [o] in force the query carries [lang] with the
    language of [o], or [en] when that is empty, and it carries
    [corners=true] when the flag of [o] is set; when it is not set there is
    no [corners] parameter at all. *)
Theorem options_parameters_C6 w op opts o env log :
  resolve w opts = Some o →
  let lang := if String.eqb (Lang o) "" then "en" else Lang o in
  let segs := (if Corners o then ["corners=true"] else [])
              ++ ["key=" +:+ QueryEscape (apikey w);
                  "lang=" +:+ QueryEscape lang;
                  (op_param op).1 +:+ "=" +:+ QueryEscape (op_param op).2] in
  op_values w op o !! "lang" = Some [lang]
  ∧ op_values w op o !! "corners" = (if Corners o then Some ["true"] else None)
  ∧ (∃ r, requests (call w op opts env log).2 = requests log ++ [r]
        ∧ URL r = op_url op +:+ "?" +:+ Join segs "&")
  ∧ (Corners o = false → Forall (λ seg, String.prefix "corners" seg = false) segs).
Proof.
  intros Ho lang segs. split_and!.
  - unfold op_values, add, Set_. fold lang.
    destruct op; simpl; destruct (String.eqb _ _), (Corners o); by simplify_map_eq.
  - unfold op_values, add, Set_.
    destruct op; simpl; destruct (String.eqb _ _), (Corners o); by simplify_map_eq.
  - exists (op_request w op o). split; [by apply call_requests|].
    apply URL_op_request.
  - intros Hc. subst segs. rewrite Hc. simpl.
    repeat constructor. by destruct op.
Qed.

Lemma options_parameters_C6_witness :
  resolve scenario_client (Some scenario_opts) = Some scenario_opts
  ∧ ∃ r, requests (call scenario_client (OpWords scenario_words)
                     (Some scenario_opts) refusing_env []).2 = [r]
       ∧ URL r = "https://api.what3words.com/w3w?corners=true&key=KEY&lang=de&string=prom.cape.pump".
Proof.
  split; [reflexivity|].
  destruct (options_parameters_C6 scenario_client (OpWords scenario_words)
              (Some scenario_opts) scenario_opts refusing_env [] eq_refl)
    as (_ & _ & (r & H1 & H2) & _).
  exists r. split; [exact H1 | exact H2].
Defined.

(** C3: per-call options, when given, are the options in force: the
    request carries their language (or [en] when it is empty) and
    [corners=true] exactly when their flag is set, whatever the client's
    defaults are, also when every field of the per-call options is zero;
    without per-call options the request carries the same of the client's
    defaults.  So the run of a call with options does not depend on the
    defaults, and a call without options is the call with the defaults
    passed as options. *)
Theorem options_replace_defaults_C3 (op : operation) (env : Env) (log : list event) :
  (∀ k c d o, ∃ r,
     requests (call (mkW3W k c d) op (Some o) env log).2 = requests log ++ [r]
     ∧ URL r = op_url op +:+ "?" +:+
         Join ((if Corners o then ["corners=true"] else [])
               ++ ["key=" +:+ QueryEscape k;
                   "lang=" +:+ QueryEscape
                      (if String.eqb (Lang o) "" then "en" else Lang o);
                   (op_param op).1 +:+ "=" +:+ QueryEscape (op_param op).2]) "&")
  ∧ (∀ k c d, ∃ r,
       requests (call (mkW3W k c (Some d)) op None env log).2 = requests log ++ [r]
       ∧ URL r = op_url op +:+ "?" +:+
           Join ((if Corners d then ["corners=true"] else [])
                 ++ ["key=" +:+ QueryEscape k;
                     "lang=" +:+ QueryEscape
                        (if String.eqb (Lang d) "" then "en" else Lang d);
                     (op_param op).1 +:+ "=" +:+ QueryEscape (op_param op).2]) "&")
  ∧ (∀ k c d d' o,
       call (mkW3W k c d) op (Some o) env log = call (mkW3W k c d') op (Some o) env log)
  ∧ (∀ k c d,
       call (mkW3W k c (Some d)) op None env log
       = call (mkW3W k c (Some d)) op (Some d) env log)
  ∧ (∀ k c d, ∃ r,
       requests (call (mkW3W k c d) op (Some (mkOptions "" false)) env log).2
       = requests log ++ [r]
       ∧ URL r = op_url op +:+ "?" +:+
           Join ["key=" +:+ QueryEscape k; "lang=en";
                 (op_param op).1 +:+ "=" +:+ QueryEscape (op_param op).2] "&").
Proof.
  split_and!.
  - intros k c d o. eexists. split; [by apply call_requests|].
    by rewrite URL_op_request.
  - intros k c d. eexists. split; [by apply call_requests|].
    by rewrite URL_op_request.
  - intros k c d d' o. by rewrite !call_run.
  - intros k c d. by rewrite !call_run.
  - intros k c d. eexists. split; [by apply call_requests|].
    by rewrite URL_op_request.
Qed.

(** C10: the query of the request of every operation is the join, with [&],
    of the [key=value] segments of its parameters taken in increasing order
    of their keys, each key once; and [Encode] gives the same text whichever
    of two parameters was set first. *)
Theorem query_sorted_by_key_C10 w op opts o env log :
  resolve w opts = Some o →
  (∃ r ks,
     requests (call w op opts env log).2 = requests log ++ [r]
     ∧ URL r = op_url op +:+ "?" +:+
         Join (flat_map (λ k, segment k <$> default [] (op_values w op o !! k)) ks) "&"
     ∧ StronglySorted String.le ks ∧ NoDup ks
     ∧ (∀ k, k ∈ ks ↔ is_Some (op_values w op o !! k))
     ∧ ks = (if Corners o then ["corners"] else [])
            ++ ["key"; "lang"; (op_param op).1])
  ∧ (∀ (v : Values) k1 x1 k2 x2,
       k1 ≠ k2 → Encode (Set_ k1 x1 (Set_ k2 x2 v)) = Encode (Set_ k2 x2 (Set_ k1 x1 v))).
Proof.
  intros Ho. split.
  - exists (op_request w op o), (sorted_keys (op_values w op o)).
    split_and!.
    + by apply call_requests.
    + unfold op_request. simpl. by rewrite Encode_join.
    + apply sorted_keys_sorted.
    + apply sorted_keys_NoDup.
    + apply elem_of_sorted_keys.
    + unfold op_values. rewrite add_lang. generalize (lang_param o). intros l.
      destruct op; simpl; destruct (Corners o); by vm_compute.
  - intros v k1 x1 k2 x2 Hne. unfold Set_. by rewrite insert_insert_ne.
Qed.

Lemma query_sorted_by_key_C10_witness :
  resolve scenario_client (Some scenario_opts) = Some scenario_opts
  ∧ ∃ r, requests (call scenario_client (OpPosition scenario_ll)
                     (Some scenario_opts) refusing_env []).2 = [r]
       ∧ URL r = "https://api.what3words.com/position?corners=true&key=KEY&lang=de&position=51.484462999999998%2C-0.195405000000000".
Proof.
  split; [reflexivity|].
  destruct (query_sorted_by_key_C10 scenario_client (OpPosition scenario_ll)
              (Some scenario_opts) scenario_opts refusing_env [] eq_refl)
    as [(r & ks & H1 & H2 & _ & _ & _ & Hks) _].
  exists r. split; [exact H1|]. rewrite H2, Hks. vm_compute. reflexivity.
Defined.

(** The log of an operation is the log of its [call]. *)
Lemma call_log w op opts env log :
  (call w op opts env log).2
  = match op with
    | OpWords words => (Words w words opts env log).2
    | OpPosition ll => (Position_ w ll opts env log).2
    | OpLangsW3W words => (LangsW3W w words opts env log).2
    | OpLangsPos ll => (LangsPos w ll opts env log).2
    end.
Proof.
  destruct op; unfold call, mbind, M_bind;
    match goal with |- context [let (_, _) := ?run in _] =>
      by destruct run as [[a|msg] log'] end.
Qed.

(** The scenario values are the float64 values nearest to the decimals. *)
Lemma scenario_values_nearest :
  nearest_to 7245794011942815 (-47) 51484463 1000000 = true
  ∧ nearest_to 7040207081490654 (-55) 195405 1000000 = true.
Proof. by vm_compute. Qed.

(** C4, as the specification has it, fails: the URL of the request is not
    the one of scenario 2. *)
Lemma scenario2_url_C4_counterexample :
  New "KEY" None = (Some scenario_client, None)
  ∧ ∃ r, requests (Position_ scenario_client scenario_ll (Some scenario_opts)
                     refusing_env []).2 = [r]
       ∧ Method r = "GET"
       ∧ URL r ≠ scenario2_url.
Proof.
  split; [by vm_compute|]. eexists. split; [by vm_compute|].
  split; [done|]. by vm_compute.
Qed.

(** C4, amended: on a client made with the key [KEY], [Position] with the
    coordinate [{51.484463, -0.195405}] and the options [{"de", true}]
    sends one request, a GET with the header [Accept: application/json],
    whose URL lists the parameters in increasing key order, has the comma
    of the coordinate percent-encoded, and prints the latitude as the
    float64 nearest to [51.484463] has it to 15 decimals. *)
Theorem scenario2_request_C4 (d : option Options) (env : Env) (log : list event) :
  ∃ w, New "KEY" d = (Some w, None)
     ∧ requests (Position_ w scenario_ll (Some scenario_opts) env log).2
       = requests log
         ++ [mkRequest "GET"
               "https://api.what3words.com/position?corners=true&key=KEY&lang=de&position=51.484462999999998%2C-0.195405000000000"
               {[ "Accept" := ["application/json"] ]}].
Proof.
  exists (mkW3W "KEY" mkClient (Some (default defs d))). split; [by destruct d|].
  rewrite <-(call_log _ (OpPosition scenario_ll)).
  rewrite (call_requests _ _ _ scenario_opts) by done.
  apply (f_equal (app (requests log))). by vm_compute.
Qed.

(** C8, as the specification has it, fails: a coordinate of NaNs gives a
    text with no decimals at all; the text of a small coordinate denotes
    zero, so that nothing of the coordinate is read back; and the text of
    the float64 nearest to [47/11] is nearer to the float64 just below it,
    so that reading the text as a float64 gives that one, [2^-50] away. *)
Lemma position_param_C8_counterexample :
  position_param (mkLatLng strconv.NaN strconv.NaN) = "NaN,NaN"
  ∧ strconv.read_fixed (strconv.Sprintf_f 15 strconv.NaN) = None
  ∧ position_param (mkLatLng tiny tiny) = "0.000000000000000,0.000000000000000"
  ∧ strconv.read_fixed (strconv.Sprintf_f 15 tiny) = Some (false, 0%Z, 15%nat)
  ∧ ¬ QArith_base.Qeq (strconv.magnitude tiny) (strconv.decimal 0 15)
  ∧ nearest_to 4810663238327575 (-50) 47 11 = true
  ∧ strconv.Sprintf_f 15 forty_seven_elevenths = "4.272727272727272"
  ∧ QArith_base.Qlt
      (Qabs.Qabs (QArith_base.Qminus (text_value false 4272727272727272 15)
                                     (float_value just_below)))
      (Qabs.Qabs (QArith_base.Qminus (text_value false 4272727272727272 15)
                                     (float_value forty_seven_elevenths)))
  ∧ QArith_base.Qlt
      (strconv.half_unit 15)
      (Qabs.Qabs (QArith_base.Qminus (float_value just_below)
                                     (float_value forty_seven_elevenths))).
Proof. split_and!; by vm_compute. Qed.

(** C8, amended: for a coordinate of two numbers (no NaN, no infinity) the
    [position] parameter is the two texts with a comma between them, and
    [Position] and [LangsPos] send it so, with the comma as [%2C]; each
    text is an optional [-], digits, a point and exactly 15 digits; the
    decimal it denotes has the sign of the value and is within [5e-16] of
    it; and every float64 that is at least as near to that decimal as the
    value is, as the nearest one that reading the text gives, is within
    [1e-15] of the value. *)
Theorem position_parameter_C8 (ll : LatLng) :
  strconv.is_finite (Lat ll) = true → strconv.is_finite (Lng ll) = true →
  position_param ll
  = strconv.Sprintf_f 15 (Lat ll) +:+ "," +:+ strconv.Sprintf_f 15 (Lng ll)
  ∧ Forall (λ x, ∃ n,
              strconv.read_fixed (strconv.Sprintf_f 15 x)
              = Some (strconv.sign_bit x, n, 15%nat)
              ∧ QArith_base.Qle
                  (Qabs.Qabs (QArith_base.Qminus (strconv.decimal n 15)
                                                 (strconv.magnitude x)))
                  (strconv.half_unit 15)
              ∧ QArith_base.Qle
                  (Qabs.Qabs (QArith_base.Qminus
                                (text_value (strconv.sign_bit x) n 15)
                                (float_value x)))
                  (strconv.half_unit 15)
              ∧ ∀ y, QArith_base.Qle
                       (Qabs.Qabs (QArith_base.Qminus
                                     (text_value (strconv.sign_bit x) n 15)
                                     (float_value y)))
                       (Qabs.Qabs (QArith_base.Qminus
                                     (text_value (strconv.sign_bit x) n 15)
                                     (float_value x))) →
                     QArith_base.Qle
                       (Qabs.Qabs (QArith_base.Qminus (float_value y)
                                                      (float_value x)))
                       (QArith_base.Qmake 1 (10 ^ 15)))
           [Lat ll; Lng ll]
  ∧ (∀ w o op, op = OpPosition ll ∨ op = OpLangsPos ll →
               op_values w op o !! "position" = Some [position_param ll])
  ∧ (∀ w op opts o env log,
       op = OpPosition ll ∨ op = OpLangsPos ll →
       resolve w opts = Some o →
       ∃ r, requests (call w op opts env log).2 = requests log ++ [r]
          ∧ URL r
            = op_url op +:+ "?" +:+
              Join ((if Corners o then ["corners=true"] else [])
                    ++ ["key=" +:+ QueryEscape (apikey w);
                        "lang=" +:+ QueryEscape
                           (if String.eqb (Lang o) "" then "en" else Lang o);
                        "position=" +:+ strconv.Sprintf_f 15 (Lat ll) +:+ "%2C"
                                    +:+ strconv.Sprintf_f 15 (Lng ll)]) "&").
Proof.
  intros Hlat Hlng.
  assert (∀ x, strconv.is_finite x = true → ∃ n,
            strconv.read_fixed (strconv.Sprintf_f 15 x)
            = Some (strconv.sign_bit x, n, 15%nat)
            ∧ QArith_base.Qle
                (Qabs.Qabs (QArith_base.Qminus (strconv.decimal n 15)
                                               (strconv.magnitude x)))
                (strconv.half_unit 15)
            ∧ QArith_base.Qle
                (Qabs.Qabs (QArith_base.Qminus
                              (text_value (strconv.sign_bit x) n 15)
                              (float_value x)))
                (strconv.half_unit 15)
            ∧ ∀ y, QArith_base.Qle
                     (Qabs.Qabs (QArith_base.Qminus
                                   (text_value (strconv.sign_bit x) n 15)
                                   (float_value y)))
                     (Qabs.Qabs (QArith_base.Qminus
                                   (text_value (strconv.sign_bit x) n 15)
                                   (float_value x))) →
                   QArith_base.Qle
                     (Qabs.Qabs (QArith_base.Qminus (float_value y)
                                                    (float_value x)))
                     (QArith_base.Qmake 1 (10 ^ 15))) as Hx.
  { intros x Hfin.
    destruct (Sprintf_f_reads_back 15 x Hfin) as (n & Hread & Hclose).
    exists n. split; [done|]. split; [done|].
    assert (QArith_base.Qle
              (Qabs.Qabs (QArith_base.Qminus
                            (text_value (strconv.sign_bit x) n 15)
                            (float_value x)))
              (strconv.half_unit 15)) as Hsigned.
    { unfold text_value, float_value. by apply signed_close. }
    split; [done|]. intros y Hy.
    eapply QArith_base.Qle_trans; [by eapply near_as_close|].
    by vm_compute. }
  split_and!; [done | | |].
  - repeat constructor; by apply Hx.
  - intros w o op Hop. unfold op_values, add, Set_.
    destruct Hop as [-> | ->]; simpl;
      destruct (String.eqb _ _), (Corners o); by simplify_map_eq.
  - intros w op opts o env log Hop Ho. exists (op_request w op o).
    split; [by apply call_requests|]. rewrite URL_op_request.
    assert ((op_param op).1 = "position" ∧ (op_param op).2 = position_param ll)
      as [-> ->] by (by destruct Hop as [-> | ->]).
    unfold position_param. rewrite !QueryEscape_app, !Sprintf_f_plain by done.
    done.
Qed.

Lemma position_parameter_C8_witness :
  strconv.is_finite (Lat scenario_ll) = true
  ∧ strconv.is_finite (Lng scenario_ll) = true
  ∧ position_param scenario_ll = "51.484462999999998,-0.195405000000000"
  ∧ ∃ r, requests (call scenario_client (OpPosition scenario_ll) None
                     refusing_env []).2 = [r]
       ∧ URL r = "https://api.what3words.com/position?key=KEY&lang=en&position=51.484462999999998%2C-0.195405000000000".
Proof.
  split; [reflexivity|]. split; [reflexivity|].
  destruct (position_parameter_C8 scenario_ll eq_refl eq_refl) as (H & _ & _ & Hreq).
  split; [rewrite H; vm_compute; reflexivity|].
  destruct (Hreq scenario_client (OpPosition scenario_ll) None defs refusing_env []
              (or_introl eq_refl) eq_refl) as (r & H1 & H2).
  exists r. split; [exact H1|]. rewrite H2. vm_compute. reflexivity.
Defined.

(** *** Errors of the transport and of the decoder *)

(** [exec] hands a transport error back, with a nil interface, after one
    request and no decoding. *)
Lemma exec_transport_error w u vals opts o in_ env log err :
  resolve w opts = Some o →
  env_Do env log (Header_Add "Accept" "application/json"
                    (NewRequest "GET" (u +:+ "?" +:+ Encode (add o vals)))) = inr err →
  ∃ req, exec w u vals opts in_ env log
         = (Returned (None, Some err), log ++ [EvDo req]).
Proof. intros Ho Hdo. rewrite exec_run, Ho. simpl. rewrite Hdo. by eexists. Qed.

(** [exec] hands a decoding error back, with a nil interface. *)
Lemma exec_decode_error w u vals opts o in_ env log resp err :
  resolve w opts = Some o →
  env_Do env log (Header_Add "Accept" "application/json"
                    (NewRequest "GET" (u +:+ "?" +:+ Encode (add o vals)))) = inl resp →
  (decode_value env (Response_Body resp) in_).2 = Some err →
  ∃ req, exec w u vals opts in_ env log
         = (Returned (None, Some err),
            log ++ [EvDo req; EvDecode (Response_Body resp)]).
Proof.
  intros Ho Hdo Hd. rewrite exec_run, Ho. simpl. rewrite Hdo, Hd. by eexists.
Qed.

(** The four operations assert the type of what [exec] returns before they
    look at the error: on a transport error they panic, after the one
    request and with nothing decoded. *)
Lemma call_transport_error w op opts o env log err :
  resolve w opts = Some o →
  env_Do env log (op_request w op o) = inr err →
  call w op opts env log
  = (Panicked (nil_assertion op), log ++ [EvDo (op_request w op o)]).
Proof. intros Ho Hdo. by rewrite call_run, Ho; simpl; rewrite Hdo. Qed.

(** On a decoding error they panic as well. *)
Lemma call_decode_error w op opts o env log resp err :
  resolve w opts = Some o →
  env_Do env log (op_request w op o) = inl resp →
  (decode_value env (Response_Body resp) (op_target op)).2 = Some err →
  call w op opts env log
  = (Panicked (nil_assertion op),
     log ++ [EvDo (op_request w op o); EvDecode (Response_Body resp)]).
Proof. intros Ho Hdo Hd. by rewrite call_run, Ho; simpl; rewrite Hdo, Hd. Qed.

(** Without an error they return what was decoded. *)
Lemma call_success w op opts o env log resp :
  resolve w opts = Some o →
  env_Do env log (op_request w op o) = inl resp →
  (decode_value env (Response_Body resp) (op_target op)).2 = None →
  (call w op opts env log).1
  = Returned (to_result (decode_value env (Response_Body resp) (op_target op)).1,
              None).
Proof. intros Ho Hdo Hd. by rewrite call_run, Ho; simpl; rewrite Hdo, Hd. Qed.

(** C1 (the code departs from it): with a transport that refuses the
    connection, each of the four operations sends its one request, decodes
    nothing, and then panics in its type assertion on the nil interface that
    [exec] returned with the error; no error reaches the caller. *)
Theorem transport_error_panics_C1 :
  let runs :=
    [(call scenario_client (OpWords scenario_words) None refusing_env []);
     (call scenario_client (OpPosition scenario_ll) None refusing_env []);
     (call scenario_client (OpLangsW3W scenario_words) None refusing_env []);
     (call scenario_client (OpLangsPos scenario_ll) None refusing_env [])] in
  runs.*1
  = [Panicked "interface conversion: interface {} is nil, not *w3w.Position";
     Panicked "interface conversion: interface {} is nil, not *w3w.Position";
     Panicked "interface conversion: interface {} is nil, not *w3w.Languages";
     Panicked "interface conversion: interface {} is nil, not *w3w.Languages"]
  ∧ Forall (λ run, length (requests run.2) = 1%nat ∧ decodes run.2 = []) runs
  ∧ (Words scenario_client scenario_words None refusing_env []).1
    = Panicked "interface conversion: interface {} is nil, not *w3w.Position".
Proof. split_and!; [by vm_compute | repeat constructor | by vm_compute]. Qed.

(** C2 (the code departs from it): with a body that is no JSON text, or
    that is a JSON text of another shape, each of the four operations
    panics in its type assertion on the nil interface that [exec] returned
    with the decoding error; no error reaches the caller. *)
Theorem decode_error_panics_C2 :
  let runs (b : Body) :=
    [(call scenario_client (OpWords scenario_words) None (strict_env b) []);
     (call scenario_client (OpPosition scenario_ll) None (strict_env b) []);
     (call scenario_client (OpLangsW3W scenario_words) None (strict_env b) []);
     (call scenario_client (OpLangsPos scenario_ll) None (strict_env b) [])] in
  let panics :=
    [Panicked "interface conversion: interface {} is nil, not *w3w.Position";
     Panicked "interface conversion: interface {} is nil, not *w3w.Position";
     Panicked "interface conversion: interface {} is nil, not *w3w.Languages";
     Panicked "interface conversion: interface {} is nil, not *w3w.Languages"] in
  (runs garbled_body).*1 = panics
  ∧ (runs array_body).*1 = panics
  ∧ (Position_ scenario_client scenario_ll None (strict_env garbled_body) []).1
    = Panicked "interface conversion: interface {} is nil, not *w3w.Position"
  ∧ decode_value (strict_env garbled_body) garbled_body (LanguagesPtr empty_Languages)
    = (LanguagesPtr empty_Languages,
       Some (ErrSyntax "invalid character '<' looking for beginning of value"))
  ∧ decode_value (strict_env array_body) array_body (LanguagesPtr empty_Languages)
    = (LanguagesPtr empty_Languages, Some (ErrUnmarshalType "array" "w3w.Languages")).
Proof. split_and!; by vm_compute. Qed.

(** JSON [null] is the one value that makes a slice nil. *)
Lemma unmarshal_slice_nil grow v sl errs :
  unmarshal_slice grow v (Some sl) = (None, errs) → v = json.Null.
Proof.
  unfold unmarshal_slice. intros H.
  destruct v as [| | | |[|j js]|]; try done.
  by destruct (unmarshal_elems _ _).
Qed.

(** C9 (the code departs from it): when the body is the JSON object
    [{"languages": null}] decoding succeeds, and [LangsW3W] and [LangsPos]
    return, without an error, a list that is nil, although they start from
    the empty list [[]Language{}]. *)
Theorem null_languages_nil_C9 :
  (LangsW3W scenario_client scenario_words None
     (answering_env null_languages_body) []).1
  = Returned (mkLanguages None, None)
  ∧ (LangsPos scenario_client scenario_ll None
       (answering_env null_languages_body) []).1
    = Returned (mkLanguages None, None)
  ∧ Languages_Languages empty_Languages = Some (mkSlice [] [])
  ∧ (∀ grow, unmarshal_Languages grow (json.Object []) empty_Languages
              = (empty_Languages, None))
  ∧ (∀ grow, unmarshal_Languages grow (json.Object [("languages", json.Array [])])
               empty_Languages
             = (empty_Languages, None)).
Proof. split_and!; by vm_compute. Qed.

End claims.

(** ** Further properties of the package *)

Section more.
Import GoStrings url.

Ltac members H :=
  repeat (apply elem_of_cons in H as [H | H]); [.. | by apply elem_of_nil in H].

(** [add] replaces whatever [lang] held by one value, sets [corners] only
    when the flag is set and otherwise leaves what [corners] held, and
    touches no other key; so of two [add]s the second decides [lang], a set
    flag of either decides [corners], and a repeated [add] changes nothing. *)
Theorem add_overrides_and_keeps (o1 o2 : Options) (v : Values) :
  add o2 v !! "lang" = Some [if String.eqb (Lang o2) "" then "en" else Lang o2]
  ∧ add o2 v !! "corners" = (if Corners o2 then Some ["true"] else v !! "corners")
  ∧ (∀ k, k ≠ "lang" → k ≠ "corners" → add o2 v !! k = v !! k)
  ∧ add o2 (add o1 v) !! "lang"
    = Some [if String.eqb (Lang o2) "" then "en" else Lang o2]
  ∧ add o2 (add o1 v) !! "corners"
    = (if Corners o2 || Corners o1 then Some ["true"] else v !! "corners")
  ∧ add o2 (add o2 v) = add o2 v.
Proof.
  rewrite !add_lang. fold (lang_param o2). unfold Set_.
  split_and!.
  - by destruct (Corners o2); simplify_map_eq.
  - by destruct (Corners o2); simplify_map_eq.
  - intros k H1 H2. by destruct (Corners o2); simplify_map_eq.
  - by destruct (Corners o2), (Corners o1); simplify_map_eq.
  - by destruct (Corners o2), (Corners o1); simplify_map_eq.
  - apply map_eq. intros k.
    destruct (decide (k = "lang")) as [-> | H1];
      [|destruct (decide (k = "corners")) as [-> | H2]];
      by destruct (Corners o2); simplify_map_eq.
Qed.

(** A client made by [New] without defaults, called without options, asks
    for [lang=en] and sends no [corners]; made with defaults, it uses
    them.  The key goes out as it was given, escaped but not trimmed. *)
Theorem New_then_call (k : string) (d : option Options) op env log :
  ¬ WhitespaceOnly k →
  ∃ w r, New k d = (Some w, None)
    ∧ requests (call w op None env log).2 = requests log ++ [r]
    ∧ URL r = op_url op +:+ "?" +:+
        Join (match d with
              | Some o =>
                  (if Corners o then ["corners=true"] else [])
                  ++ ["key=" +:+ QueryEscape k;
                      "lang=" +:+ QueryEscape
                         (if String.eqb (Lang o) "" then "en" else Lang o)]
              | None => ["key=" +:+ QueryEscape k; "lang=en"]
              end
              ++ [(op_param op).1 +:+ "=" +:+ QueryEscape (op_param op).2]) "&".
Proof.
  intros Hw.
  assert ((String.eqb k "" || String.eqb (TrimSpace k) "") = false) as Hk.
  { apply not_true_is_false. by intros H%TrimSpace_eqb. }
  exists (mkW3W k mkClient (Some (default defs d))),
         (op_request (mkW3W k mkClient (Some (default defs d))) op (default defs d)).
  split_and!.
  - unfold New. rewrite Hk. by destruct d.
  - by apply call_requests.
  - rewrite URL_op_request. destruct d as [o|]; simpl; [|done].
    by rewrite <-app_assoc.
Qed.

Lemma New_then_call_witness :
  ¬ WhitespaceOnly " my key "
  ∧ ∃ w r, New " my key " None = (Some w, None)
      ∧ requests (call w (OpWords scenario_words) None refusing_env []).2 = [r]
      ∧ URL r = "https://api.what3words.com/w3w?key=+my+key+&lang=en&string=prom.cape.pump".
Proof.
  assert (¬ WhitespaceOnly " my key ") as Hk.
  { intros H%TrimSpace_empty_iff. by vm_compute in H. }
  split; [exact Hk|].
  destruct (New_then_call " my key " None (OpWords scenario_words) refusing_env [] Hk)
    as (w & r & H1 & H2 & H3).
  exists w, r. split; [exact H1|]. split; [exact H2|]. exact H3.
Defined.

(** White space is made of the bytes 9 to 13, 32 and bytes from 128 on. *)
Lemma AllSpace_bytes l :
  AllSpace l → Forall (λ c, (N_of_ascii c ≤ 32 ∨ 128 ≤ N_of_ascii c)%N) l.
Proof.
  induction 1 as [|r s Hr _ IH]; [constructor|].
  apply Forall_app. split; [|done].
  apply IsSpace_cases in Hr. members Hr; subst r;
    repeat (apply Forall_cons; split;
            [first [left; vm_compute; discriminate
                   | right; vm_compute; discriminate] |]);
    by apply Forall_nil.
Qed.

(** A key that holds a printable ASCII character other than the space is
    accepted, whatever surrounds the character, and is kept as it is. *)
Theorem New_accepts_printable (k : string) (d : option Options) (c : ascii) :
  c ∈ list_ascii_of_string k → (32 < N_of_ascii c < 128)%N →
  New k d = (Some (mkW3W k mkClient (Some (default defs d))), None).
Proof.
  intros Hin Hc. unfold New.
  assert ((String.eqb k "" || String.eqb (TrimSpace k) "") = false) as ->.
  { apply not_true_is_false. intros H%TrimSpace_eqb%AllSpace_bytes.
    rewrite Forall_forall in H. specialize (H c Hin). lia. }
  by destruct d.
Qed.

Lemma New_accepts_printable_witness :
  "K"%char ∈ list_ascii_of_string "  KEY " ∧ (32 < N_of_ascii "K" < 128)%N
  ∧ New "  KEY " None = (Some (mkW3W "  KEY " mkClient (Some defs)), None).
Proof.
  assert ("K"%char ∈ list_ascii_of_string "  KEY ") as Hin by compute_done.
  assert (32 < N_of_ascii "K" < 128)%N as Hc by (vm_compute; done).
  split; [exact Hin|]. split; [exact Hc|].
  exact (New_accepts_printable "  KEY " None "K" Hin Hc).
Defined.

(** Every operation makes one round trip: it keeps the log it finds, sends
    one GET with the one header [Accept: application/json], and decodes
    once, the body of the answer, exactly when the transport answered.  The
    request is made of the key, the operation and the options alone. *)
Theorem call_one_round_trip w op opts o env log :
  resolve w opts = Some o →
  ∃ r, Method r = "GET"
     ∧ Header r = {[ "Accept" := ["application/json"] ]}
     ∧ URL r = op_url op +:+ "?" +:+
         Join ((if Corners o then ["corners=true"] else [])
               ++ ["key=" +:+ QueryEscape (apikey w);
                   "lang=" +:+ QueryEscape
                      (if String.eqb (Lang o) "" then "en" else Lang o);
                   (op_param op).1 +:+ "=" +:+ QueryEscape (op_param op).2]) "&"
     ∧ (call w op opts env log).2
       = log ++ EvDo r :: match env_Do env log r with
                          | inl resp => [EvDecode (Response_Body resp)]
                          | inr _ => []
                          end.
Proof.
  intros Ho. exists (op_request w op o). split_and!; [done | done | |].
  - apply URL_op_request.
  - rewrite call_run, Ho. simpl. by destruct (env_Do _ _ _).
Qed.

Lemma call_one_round_trip_witness :
  resolve scenario_client None = Some defs
  ∧ ∃ r, URL r = "https://api.what3words.com/get-languages?key=KEY&lang=en&string=prom.cape.pump"
       ∧ (call scenario_client (OpLangsW3W scenario_words) None
            (answering_env null_languages_body) []).2
         = [EvDo r; EvDecode null_languages_body].
Proof.
  split; [reflexivity|].
  destruct (call_one_round_trip scenario_client (OpLangsW3W scenario_words) None
              defs (answering_env null_languages_body) [] eq_refl)
    as (r & _ & _ & H1 & H2).
  exists r. split; [exact H1 | exact H2].
Defined.

(** The status code of the response is never looked at: with every status
    replaced by another one, each operation does and returns the same. *)
Theorem status_code_ignored (code : Z) w op opts env log :
  call w op opts (with_status code env) log = call w op opts env log.
Proof.
  rewrite !call_run. destruct (resolve w opts) as [o|]; [|done]. simpl.
  destruct (env_Do env log (op_request w op o)) as [resp|err]; [|done]. simpl.
  by destruct (Response_Body resp) as [why|v], op.
Qed.

(** A client that [New] returns has defaults, so that resolving the options
    of a call never dereferences nil; a [W3W] whose defaults are nil panics,
    when called without options, before it sends anything. *)
Theorem New_client_has_defaults k d w e op opts env log :
  New k d = (Some w, e) →
  is_Some (resolve w opts)
  ∧ (call w op opts env log).1 ≠ Panicked nil_dereference
  ∧ call (mkW3W k mkClient None) op None env log = (Panicked nil_dereference, log).
Proof.
  intros Hnew.
  assert (∃ o, defaults w = Some o) as [o Ho].
  { unfold New in Hnew. destruct (_ || _); [done|].
    destruct d as [o|]; simplify_eq/=; by eexists. }
  assert (is_Some (resolve w opts)) as [o' Ho'].
  { unfold resolve. destruct opts; [by eexists | by rewrite Ho]. }
  split_and!; [by eexists | | by rewrite call_run].
  rewrite call_run, Ho'. simpl.
  destruct (env_Do _ _ _) as [resp|err]; simpl.
  - destruct (decode_value _ _ _).2; [by destruct op | done].
  - by destruct op.
Qed.

Lemma New_client_has_defaults_witness :
  New "KEY" None = (Some scenario_client, None)
  ∧ is_Some (resolve scenario_client None)
  ∧ call (mkW3W "KEY" mkClient None) (OpWords scenario_words) None refusing_env []
    = (Panicked nil_dereference, []).
Proof.
  assert (New "KEY" None = (Some scenario_client, None)) as Hnew by reflexivity.
  split; [exact Hnew|].
  destruct (New_client_has_defaults "KEY" None scenario_client None
              (OpWords scenario_words) None refusing_env [] Hnew) as (H1 & _ & H2).
  split; [exact H1 | exact H2].
Defined.

(** When the transport answers with a JSON text that the decoder takes
    without an error, [Words] and [Position] return what the decoder made of
    the zero [Position], and no error. *)
Theorem position_operations_return_decoded w words ll opts o env log resp v rest p :
  resolve w opts = Some o →
  (∀ r, env_Do env log r = inl resp) →
  Response_Body resp = Document v rest →
  env_unmarshal_Position env v zero_Position = (p, None) →
  (Words w words opts env log).1 = Returned (p, None)
  ∧ (Position_ w ll opts env log).1 = Returned (p, None).
Proof.
  intros Ho Hdo Hb Hp.
  unfold Words, Position_. unfold mbind at 1 3, M_bind. rewrite !exec_run, Ho.
  simpl. rewrite !Hdo, Hb. simpl. by rewrite Hp.
Qed.

Lemma position_operations_return_decoded_witness :
  resolve scenario_client None = Some defs
  ∧ (Words scenario_client scenario_words None
       (answering_env (Document (json.Object []) "")) []).1
    = Returned (zero_Position, None).
Proof.
  split; [reflexivity|].
  exact (proj1 (position_operations_return_decoded scenario_client scenario_words
                  scenario_ll None defs
                  (answering_env (Document (json.Object []) "")) []
                  (mkResponse 200 (Document (json.Object []) "")) (json.Object []) ""
                  zero_Position eq_refl (λ _, eq_refl) eq_refl eq_refl)).
Defined.

(** *** Decoding the list of languages *)

Lemma unmarshal_Language_json l :
  unmarshal_Language (language_json l) (mkLanguage "" "") = (l, []).
Proof. by destruct l. Qed.

Lemma unmarshal_elems_json ls :
  unmarshal_elems (language_json <$> ls) [] = (ls, []).
Proof.
  induction ls as [|l ls IH]; [done|].
  rewrite fmap_cons. cbn [unmarshal_elems hd tl].
  by rewrite unmarshal_Language_json, IH.
Qed.

(** A slice that was grown to hold [n] elements has room for them. *)
Lemma grown_enough grow (fuel c n : nat) :
  (n ≤ c + fuel)%nat → (n ≤ grown grow fuel c n)%nat.
Proof.
  revert c. induction fuel as [|fuel IH]; intros c Hn; simpl.
  - destruct (n <=? c)%nat eqn:Hc; [by apply Nat.leb_le in Hc | lia].
  - destruct (n <=? c)%nat eqn:Hc; [by apply Nat.leb_le in Hc|].
    apply IH. lia.
Qed.

Lemma capacity_for_enough grow (c n : nat) : (n ≤ capacity_for grow c n)%nat.
Proof. apply grown_enough. lia. Qed.

Lemma unmarshal_languages_json grow ls :
  unmarshal_Languages grow (languages_json ls) empty_Languages
  = (mkLanguages
       (Some (mkSlice ls (replicate (capacity_for grow 0 (length ls) - length ls)
                                    (mkLanguage "" "")))), None).
Proof.
  unfold languages_json, unmarshal_Languages. cbn [foldl].
  unfold unmarshal_Languages_member.
  change (json.key_matches "languages" ("languages", _).1) with true. cbv iota.
  unfold unmarshal_slice, empty_Languages. cbn [Languages_Languages snd].
  destruct ls as [|l ls]; [done|].
  rewrite fmap_cons. cbn [backing_array elems spare app].
  rewrite <-fmap_cons, unmarshal_elems_json, length_fmap, drop_nil.
  by rewrite Nat.max_0_r.
Qed.

(** When the transport answers with the JSON text of a list of languages,
    [LangsW3W] and [LangsPos] return that list, in its order and with the
    codes and names as given, and no error; behind the list the slice
    holds the zero values of the capacity it was grown to. *)
Theorem languages_operations_return_list w words ll opts o env log resp ls rest :
  resolve w opts = Some o →
  (∀ r, env_Do env log r = inl resp) →
  Response_Body resp = Document (languages_json ls) rest →
  let room := capacity_for (env_grow env) 0 (length ls) - length ls in
  let list := mkLanguages (Some (mkSlice ls (replicate room (mkLanguage "" "")))) in
  (LangsW3W w words opts env log).1 = Returned (list, None)
  ∧ (LangsPos w ll opts env log).1 = Returned (list, None).
Proof.
  intros Ho Hdo Hb room list.
  unfold LangsW3W, LangsPos. unfold mbind at 1 3, M_bind. rewrite !exec_run, Ho.
  simpl. rewrite !Hdo, Hb. cbn [decode_value].
  by rewrite unmarshal_languages_json.
Qed.

Lemma languages_operations_return_list_witness :
  resolve scenario_client None = Some defs
  ∧ (LangsW3W scenario_client scenario_words None
       (answering_env (Document (languages_json
          [mkLanguage "en" "English"; mkLanguage "de" "Deutsch";
           mkLanguage "fr" "Français"]) "")) []).1
    = Returned (mkLanguages (Some (mkSlice
          [mkLanguage "en" "English"; mkLanguage "de" "Deutsch";
           mkLanguage "fr" "Français"] [mkLanguage "" ""])), None).
Proof.
  split; [reflexivity|].
  exact (proj1 (languages_operations_return_list scenario_client scenario_words
                  scenario_ll None defs
                  (answering_env (Document (languages_json
                     [mkLanguage "en" "English"; mkLanguage "de" "Deutsch";
                      mkLanguage "fr" "Français"]) "")) []
                  (mkResponse 200 (Document (languages_json
                     [mkLanguage "en" "English"; mkLanguage "de" "Deutsch";
                      mkLanguage "fr" "Français"]) ""))
                  [mkLanguage "en" "English"; mkLanguage "de" "Deutsch";
                   mkLanguage "fr" "Français"] ""
                  eq_refl (λ _, eq_refl) eq_refl)).
Defined.

Lemma unmarshal_slice_keeps grow v sl :
  v ≠ json.Null → is_Some (unmarshal_slice grow v (Some sl)).1.
Proof.
  intros Hv. unfold unmarshal_slice.
  destruct v as [| | | |[|j js]|]; try done; try by eexists.
  destruct (unmarshal_elems _ _). by eexists.
Qed.

Lemma languages_fold_nil grow ms cur errs :
  is_Some (Languages_Languages cur) →
  Languages_Languages
    (foldl (unmarshal_Languages_member grow) (cur, errs) ms).1 = None →
  ∃ k, (k, json.Null) ∈ ms ∧ json.key_matches "languages" k = true.
Proof.
  revert cur errs. induction ms as [|[k v] ms IH]; intros cur errs [sl Hsl] Hnil.
  { simpl in Hnil. congruence. }
  cbn [foldl] in Hnil. unfold unmarshal_Languages_member at 2 in Hnil.
  cbn [fst snd] in Hnil.
  destruct (json.key_matches "languages" k) eqn:Hk.
  - assert (v = json.Null ∨ v ≠ json.Null) as [-> | Hv]
      by (destruct v; (by left) || (by right)).
    { exists k. split; [by left | done]. }
    rewrite Hsl in Hnil.
    pose proof (unmarshal_slice_keeps grow v sl Hv) as Hkeep.
    destruct (unmarshal_slice grow v (Some sl)) as [sl' e].
    destruct (IH (mkLanguages sl') _ Hkeep Hnil) as (k' & Hin & Hk').
    exists k'. split; [by right | done].
  - destruct (IH cur errs (ex_intro _ sl Hsl) Hnil) as (k' & Hin & Hk').
    exists k'. split; [by right | done].
Qed.

(** A list of languages that comes back nil, without an error, comes from
    a body that starts with a JSON object in which a member for
    [languages] is [null], whatever bytes follow the object; every other
    body that decodes leaves a list that is not nil. *)
Theorem nil_list_only_from_null w words ll opts o env log resp l :
  resolve w opts = Some o →
  (∀ r, env_Do env log r = inl resp) →
  (LangsW3W w words opts env log).1 = Returned (l, None)
  ∨ (LangsPos w ll opts env log).1 = Returned (l, None) →
  Languages_Languages l = None →
  ∃ ms k rest, Response_Body resp = Document (json.Object ms) rest
             ∧ (k, json.Null) ∈ ms ∧ json.key_matches "languages" k = true.
Proof.
  intros Ho Hdo Hret Hnil.
  assert ((decode_value env (Response_Body resp) (LanguagesPtr empty_Languages))
          = (LanguagesPtr l, None)) as Hd.
  { unfold LangsW3W, LangsPos in Hret. unfold mbind at 1 3, M_bind in Hret.
    rewrite !exec_run, Ho in Hret. simpl in Hret. rewrite !Hdo in Hret.
    pose proof (decode_value_kind env (Response_Body resp)
                  (LanguagesPtr empty_Languages)) as Hk.
    destruct (decode_value _ _ _) as [[p|l'] [err|]];
      simpl in *; destruct Hret as [Hret | Hret]; by simplify_eq. }
  destruct (Response_Body resp) as [why|v rest]; [done|]. simpl in Hd.
  destruct (unmarshal_Languages (env_grow env) v empty_Languages) as [l' e] eqn:Hu.
  simplify_eq. unfold unmarshal_Languages in Hu.
  destruct v as [| | | | |ms]; simplify_eq/=.
  exists ms.
  destruct (foldl (unmarshal_Languages_member (env_grow env))
              (empty_Languages, []) ms) as [l' errs] eqn:Hf.
  simplify_eq.
  destruct (languages_fold_nil (env_grow env) ms empty_Languages [])
    as (k & Hin & Hk).
  - by eexists.
  - by rewrite Hf.
  - by exists k, rest.
Qed.

Lemma nil_list_only_from_null_witness :
  resolve scenario_client None = Some defs
  ∧ ∃ ms k rest,
      Document (json.Object [("languages", json.Null)]) " trailing bytes"
      = Document (json.Object ms) rest
      ∧ (k, json.Null) ∈ ms ∧ json.key_matches "languages" k = true.
Proof.
  split; [reflexivity|].
  exact (nil_list_only_from_null scenario_client scenario_words scenario_ll None
           defs
           (answering_env
              (Document (json.Object [("languages", json.Null)]) " trailing bytes"))
           []
           (mkResponse 200
              (Document (json.Object [("languages", json.Null)]) " trailing bytes"))
           (mkLanguages None)
           eq_refl (λ _, eq_refl) (or_introl eq_refl) eq_refl).
Defined.

(** *** The shape of the query *)

Lemma count_byte_app c s1 s2 :
  count_byte c (s1 +:+ s2) = (count_byte c s1 + count_byte c s2)%nat.
Proof.
  induction s1 as [|c1 s1 IH]; [done|].
  rewrite app_cons_s. cbn [count_byte]. rewrite IH. lia.
Qed.

Lemma count_byte_absent c s :
  Forall (λ c', c' ≠ c) (list_ascii_of_string s) → count_byte c s = 0%nat.
Proof.
  induction s as [|c' s IH]; [done|]. cbn [list_ascii_of_string count_byte].
  intros [Hc Hs]%Forall_cons. rewrite IH by done.
  destruct (Ascii.eqb_spec c c'); [congruence | done].
Qed.

Lemma count_byte_QueryEscape c s :
  escaped_byte c = false → count_byte c (QueryEscape s) = 0%nat.
Proof.
  intros Hc. apply count_byte_absent.
  eapply Forall_impl; [apply QueryEscape_bytes|].
  intros c' Hc' ->. congruence.
Qed.

(** Whatever the key, the words, the coordinate and the language hold, the
    URL has one [?], one [=] for each parameter and one [&] between two
    parameters: a [&], [=] or [?] inside a value cannot add a parameter or
    cut one short. *)
Theorem query_shape_fixed w op opts o env log :
  resolve w opts = Some o →
  ∃ r, requests (call w op opts env log).2 = requests log ++ [r]
     ∧ count_byte "?" (URL r) = 1%nat
     ∧ count_byte "&" (URL r) = (if Corners o then 3 else 2)%nat
     ∧ count_byte "=" (URL r) = (if Corners o then 4 else 3)%nat.
Proof.
  intros Ho. exists (op_request w op o). split; [by apply call_requests|].
  rewrite URL_op_request.
  destruct op, (Corners o); cbn [op_url op_param fst snd app Join join_rest];
    rewrite !count_byte_app, !count_byte_QueryEscape by done; by vm_compute.
Qed.

Lemma query_shape_fixed_witness :
  resolve scenario_client None = Some defs
  ∧ ∃ r, requests (call scenario_client (OpWords (mkWords "a&b=c" "?" "x"))
                     None refusing_env []).2 = [r]
       ∧ URL r = "https://api.what3words.com/w3w?key=KEY&lang=en&string=a%26b%3Dc.%3F.x"
       ∧ count_byte "&" (URL r) = 2%nat.
Proof.
  split; [reflexivity|].
  destruct (query_shape_fixed scenario_client (OpWords (mkWords "a&b=c" "?" "x"))
              None defs refusing_env [] eq_refl) as (r & H1 & _ & H2 & _).
  exists r. split; [exact H1|]. split; [|exact H2].
  vm_compute in H1. by injection H1 as <-.
Defined.

(** The text of the three words holds two dots more than the words do; no
    word is checked, so a word with a dot in it gives a text of more than
    three parts. *)
Theorem string_param_dots (words : What3Words) :
  count_byte "." (string_param words)
  = (2 + count_byte "." (word0 words) + count_byte "." (word1 words)
     + count_byte "." (word2 words))%nat.
Proof.
  unfold string_param, words_slice. rewrite Join_three, !count_byte_app.
  change (count_byte "." ".") with 1%nat. lia.
Qed.

(** *** The text of a coordinate in the query *)

(** The coordinate of two numbers goes into the URL with its digits, points
    and signs as [Sprintf] wrote them and with its comma as [%2C]. *)
Theorem position_query_text (ll : LatLng) w op opts o env log :
  strconv.is_finite (Lat ll) = true → strconv.is_finite (Lng ll) = true →
  op = OpPosition ll ∨ op = OpLangsPos ll →
  resolve w opts = Some o →
  ∃ r, requests (call w op opts env log).2 = requests log ++ [r]
     ∧ URL r
       = op_url op +:+ "?" +:+
         Join ((if Corners o then ["corners=true"] else [])
               ++ ["key=" +:+ QueryEscape (apikey w);
                   "lang=" +:+ QueryEscape
                      (if String.eqb (Lang o) "" then "en" else Lang o);
                   "position=" +:+ strconv.Sprintf_f 15 (Lat ll) +:+ "%2C"
                               +:+ strconv.Sprintf_f 15 (Lng ll)]) "&".
Proof.
  intros Hlat Hlng Hop Ho. exists (op_request w op o).
  split; [by apply call_requests|]. rewrite URL_op_request.
  assert ((op_param op).1 = "position" ∧ (op_param op).2 = position_param ll)
    as [-> ->] by (by destruct Hop as [-> | ->]).
  unfold position_param. rewrite !QueryEscape_app, !Sprintf_f_plain by done.
  done.
Qed.

Lemma position_query_text_witness :
  strconv.is_finite (Lat scenario_ll) = true
  ∧ strconv.is_finite (Lng scenario_ll) = true
  ∧ resolve scenario_client None = Some defs
  ∧ ∃ r, requests (call scenario_client (OpLangsPos scenario_ll) None
                     refusing_env []).2 = [r]
       ∧ URL r = "https://api.what3words.com/get-languages?key=KEY&lang=en&position=51.484462999999998%2C-0.195405000000000".
Proof.
  split; [reflexivity|]. split; [reflexivity|]. split; [reflexivity|].
  destruct (position_query_text scenario_ll scenario_client
              (OpLangsPos scenario_ll) None defs refusing_env []
              eq_refl eq_refl (or_intror eq_refl) eq_refl) as (r & H1 & H2).
  exists r. split; [exact H1|]. rewrite H2. vm_compute. reflexivity.
Defined.

(** No coordinate is refused: one that is no number is sent all the same,
    its text being [NaN], [%2BInf] or [-Inf]. *)
Theorem nonfinite_coordinates_sent (lat lng : strconv.float64) w op opts o env log :
  strconv.is_finite lat = false →
  op = OpPosition (mkLatLng lat lng) ∨ op = OpLangsPos (mkLatLng lat lng) →
  resolve w opts = Some o →
  ∃ r t, requests (call w op opts env log).2 = requests log ++ [r]
       ∧ t ∈ ["NaN"; "%2BInf"; "-Inf"]
       ∧ URL r
         = op_url op +:+ "?" +:+
           Join ((if Corners o then ["corners=true"] else [])
                 ++ ["key=" +:+ QueryEscape (apikey w);
                     "lang=" +:+ QueryEscape
                        (if String.eqb (Lang o) "" then "en" else Lang o);
                     "position=" +:+ t +:+ "%2C"
                        +:+ QueryEscape (strconv.Sprintf_f 15 lng)]) "&".
Proof.
  intros Hlat Hop Ho.
  exists (op_request w op o), (QueryEscape (strconv.Sprintf_f 15 lat)).
  split_and!.
  - by apply call_requests.
  - destruct lat as [|[]| |]; try done; compute_done.
  - rewrite URL_op_request.
    assert ((op_param op).1 = "position"
            ∧ (op_param op).2 = position_param (mkLatLng lat lng))
      as [-> ->] by (by destruct Hop as [-> | ->]).
    unfold position_param. by rewrite !QueryEscape_app.
Qed.

Lemma nonfinite_coordinates_sent_witness :
  strconv.is_finite strconv.NaN = false
  ∧ resolve scenario_client None = Some defs
  ∧ ∃ r, requests (call scenario_client
                     (OpPosition (mkLatLng strconv.NaN (strconv.Inf false)))
                     None refusing_env []).2 = [r]
       ∧ URL r = "https://api.what3words.com/position?key=KEY&lang=en&position=NaN%2C%2BInf".
Proof.
  split; [reflexivity|]. split; [reflexivity|].
  destruct (nonfinite_coordinates_sent strconv.NaN (strconv.Inf false)
              scenario_client (OpPosition (mkLatLng strconv.NaN (strconv.Inf false)))
              None defs refusing_env [] eq_refl (or_introl eq_refl) eq_refl)
    as (r & t & H1 & _ & _).
  exists r. split; [exact H1|].
  vm_compute in H1. by injection H1 as <-.
Defined.

(** A value of magnitude below [5e-16] is written as zero, with its sign:
    [0.000000000000000] or [-0.000000000000000]. *)
Theorem small_values_print_zero (neg : bool) (m : positive) (e : Z) :
  (e < 0)%Z → (2 * (Z.pos m * 10 ^ 15) < 2 ^ (- e))%Z →
  strconv.Sprintf_f 15 (strconv.Finite neg m e)
  = strconv.sign neg +:+ "0.000000000000000".
Proof.
  intros He Hsmall. unfold strconv.Sprintf_f, strconv.scaled.
  assert ((0 <=? e)%Z = false) as -> by lia.
  change (10 ^ Z.of_nat 15)%Z with (10 ^ 15)%Z.
  assert (strconv.round_half_even (Z.pos m * 10 ^ 15) (2 ^ (- e)) = 0%Z) as ->.
  { unfold strconv.round_half_even.
    rewrite Z.div_small, Z.mod_small by lia.
    by assert ((2 * (Z.pos m * 10 ^ 15) ?= 2 ^ (- e))%Z = Lt) as ->
      by (by apply Z.compare_lt_iff). }
  done.
Qed.

Lemma small_values_print_zero_witness :
  (-60 < 0)%Z ∧ (2 * (1 * 10 ^ 15) < 2 ^ (- -60))%Z
  ∧ strconv.Sprintf_f 15 (strconv.Finite true 1 (-60)) = "-0.000000000000000".
Proof.
  assert (-60 < 0)%Z as H1 by lia.
  assert (2 * (Z.pos 1 * 10 ^ 15) < 2 ^ (- -60))%Z as H2 by (vm_compute; done).
  split; [exact H1|]. split; [exact H2|].
  exact (small_values_print_zero true 1 (-60) H1 H2).
Defined.

End more.
